(** * The component lifecycle tree of the Vandrite plugin API

    A shallow embedding of [src/Component.ts] and [src/Plugin.ts].

    Objects live in a store indexed by reference; a method of the source is a
    function on the store.  Code that the library does not contain and merely
    calls (the [onload]/[onunload] overrides of subclasses, the callbacks
    handed to [register]) is data: a [script], a sequence of calls that such
    code may make, back into the library, into the host, or [throw].  The
    host collaborators ([window], [app.commands], [app.workspace], the DOM,
    the file system) are outside the repository; a call into them is
    appended to a recorded invocation sequence, [log], and returns normally
    unless stated otherwise.  The same sequence records every entry into a
    hook and into a disposable, so that the order of a teardown can be read
    off it.

    Calls nest (a hook may call [unload] on another node, whose disposables
    call back, ...), so the methods are closed by a fuel-indexed [call]; a
    call that does not return within the fuel is [Diverge].

    [View] and [PluginSettingTab] only build DOM elements and copy fields
    and are left out.

    A hook may be an [async] function: [load] and [unload] do not await it,
    so what they run of it is the part before its first [await], and a
    [throw] in that part does not reach them: it rejects the promise that
    the hook returns, which they drop.  The script of an [async] hook is
    therefore the part before its first [await] or [throw], and has no
    [Raise]; [Raise] is the [throw] of code that is not [async] (a hook
    declared [void], a disposable), which propagates to the caller. *)

From stdpp Require Import gmap strings list.
From Stdlib Require Import ZArith.

Set Warnings "-register-all".

(** ** Data of [types.ts] *)

(** An object reference; [===] on objects is equality of references. *)
Definition cid := nat.

(** [Command]: only [id] is read by the code at hand. *)
Record Command := { cmd_id : string; cmd_name : string }.

(** [EventRef]: the event name and the identity of the listener. *)
Record EventRef := { ev_event : string; ev_callback : nat }.

(** [JsonValue] *)
Inductive JsonValue :=
| JNull
| JBool (b : bool)
| JNumber (n : Z)
| JString (s : string)
| JArray (items : list JsonValue)
| JObject (members : list (string * JsonValue)).

(** [PluginSettings = SettingsData = JsonObject]; [{}] is the empty object. *)
Definition PluginSettings := JsonValue.
Definition empty_settings : PluginSettings := JObject [].

(** ** Calls that leave the library *)

(** A call into a host collaborator. *)
Inductive host_call :=
| window_clearInterval (id : Z)
| commands_register (cmd : Command)
| commands_unregister (id : string)
| events_off (ref : EventRef)
| workspace_registerView (type : string)
| workspace_unregisterView (type : string)
| workspace_registerExtensions (extensions : list string) (viewType : string)
| workspace_unregisterExtensions (extensions : list string)
| plugins_registerSettingsTab (pluginId : string) (tab : nat)
| plugins_unregisterSettingsTab (pluginId : string)
| head_appendChild (el : nat) (id css : string)
| element_remove (el : nat)
| console_error (msg error : string).

(** What code outside the library (a hook override, a disposable) may do.
    [Raise] is a synchronous [throw], one that reaches the caller. *)
Inductive action :=
| Note (tag : string)
| Raise (err : string)
| Host (h : host_call)
| CallLoad (c : cid)
| CallUnload (c : cid)
| CallRegister (c : cid) (cb : list action)
| CallRegisterInterval (c : cid) (id : Z)
| CallAddChild (c x : cid)
| CallRemoveChild (c x : cid)
| CallPluginOnunload (p : cid)
| CallAddCommand (p : cid) (cmd : Command)
| CallRegisterEvent (p : cid) (ref : EventRef)
| CallRegisterView (p : cid) (type : string)
| CallRegisterExtensions (p : cid) (extensions : list string) (viewType : string)
| CallLoadCss (p : cid) (css : string)
| CallAddSettingTab (p : cid) (tab : nat).

Definition script := list action.

(** The recorded invocation sequence. *)
Inductive event :=
| EvNote (tag : string)
| EvHost (h : host_call)
| EvOnload (c : cid)
| EvOnunload (c : cid)
| EvDispose (cb : script).

(** ** The store *)

(** The private fields of [Component].  [_children_retired] is a ghost
    field: the arrays that [_children] held before [unload] replaced them,
    with their last contents.  A [forEach] that was started on such an array
    goes on reading it. *)
Record component := mkComponent {
  _loaded : bool;
  _children : list cid;
  _children_retired : list (list cid);
  _intervals : list Z;
  _disposables : list script
}.

(** The private fields that [Plugin] adds. *)
Record plugin := mkPlugin {
  enabled : bool;
  registeredCommands : list string;
  registeredEvents : list EventRef;
  settingsData : PluginSettings
}.

Record state := mkState {
  comps : gmap cid component;
  plugs : gmap cid plugin;
  dom_next : nat;
  log : list event
}.

(** What the constructors leave behind. *)
Definition new_component : component := mkComponent false [] [] [] [].
Definition new_plugin : plugin := mkPlugin false [] [] empty_settings.
Definition initial : state := mkState ∅ ∅ 0 [].

(** An object that no call has touched yet is as its constructor left it. *)
Definition get (c : cid) (s : state) : component := default new_component (comps s !! c).
Definition getp (p : cid) (s : state) : plugin := default new_plugin (plugs s !! p).

Definition upd (c : cid) (f : component → component) (s : state) : state :=
  mkState (<[c := f (get c s)]> (comps s)) (plugs s) (dom_next s) (log s).
Definition updp (p : cid) (f : plugin → plugin) (s : state) : state :=
  mkState (comps s) (<[p := f (getp p s)]> (plugs s)) (dom_next s) (log s).
Definition record (e : event) (s : state) : state :=
  mkState (comps s) (plugs s) (dom_next s) (log s ++ [e]).
Definition records (es : list event) (s : state) : state :=
  mkState (comps s) (plugs s) (dom_next s) (log s ++ es).

Definition set_loaded (b : bool) (o : component) : component :=
  mkComponent b (_children o) (_children_retired o) (_intervals o) (_disposables o).
Definition set_children (l : list cid) (o : component) : component :=
  mkComponent (_loaded o) l (_children_retired o) (_intervals o) (_disposables o).
(** [this._children = []]: the old array is retired, a new one installed. *)
Definition fresh_children (o : component) : component :=
  mkComponent (_loaded o) [] (_children_retired o ++ [_children o]) (_intervals o) (_disposables o).
Definition set_intervals (l : list Z) (o : component) : component :=
  mkComponent (_loaded o) (_children o) (_children_retired o) l (_disposables o).
Definition set_disposables (l : list script) (o : component) : component :=
  mkComponent (_loaded o) (_children o) (_children_retired o) (_intervals o) l.

Definition set_commands (l : list string) (o : plugin) : plugin :=
  mkPlugin (enabled o) l (registeredEvents o) (settingsData o).
Definition set_events (l : list EventRef) (o : plugin) : plugin :=
  mkPlugin (enabled o) (registeredCommands o) l (settingsData o).
Definition set_settings (d : PluginSettings) (o : plugin) : plugin :=
  mkPlugin (enabled o) (registeredCommands o) (registeredEvents o) d.

(** ** Results of a call *)

Inductive outcome :=
| Ret (s : state)
| Exn (err : string) (s : state)
| Diverge.

Definition bind (o : outcome) (k : state → outcome) : outcome :=
  match o with
  | Ret s => k s
  | Exn e s => Exn e s
  | Diverge => Diverge
  end.

Notation "'do' s <- o ; k" := (bind o (fun s => k))
  (at level 20, s name, o at level 100, k at level 200).

(** ** [Array.prototype] *)

(** [arr.indexOf(x)]; [None] stands for [-1]. *)
Fixpoint indexOf (x : cid) (l : list cid) : option nat :=
  match l with
  | [] => None
  | y :: r => if decide (y = x) then Some 0 else S <$> indexOf x r
  end.

(** [arr.forEach(f)] on an array that [f] can neither shrink nor overwrite:
    the elements present at the start are visited in order. *)
Fixpoint forEach {A} (f : A → state → outcome) (l : list A) (s : state) : outcome :=
  match l with
  | [] => Ret s
  | x :: r => do s <- f x s; forEach f r s
  end.

(** [arr.forEach(f)] on an array that [f] may shrink meanwhile: the length
    is read once, every index below it is looked up when its turn comes, and
    an index that is no longer there is skipped.  [read] gives the array's
    current contents, [todo] the number of indices left, [k] the next one. *)
Fixpoint forEach_live {A} (read : state → list A) (f : A → state → outcome)
    (todo k : nat) (s : state) : outcome :=
  match todo with
  | 0 => Ret s
  | S todo' =>
      match read s !! k with
      | Some x => do s <- f x s; forEach_live read f todo' (S k) s
      | None => forEach_live read f todo' (S k) s
      end
  end.

(** The contents of the array that was the [g]-th one to sit in
    [c._children]. *)
Definition children_array (c : cid) (g : nat) (s : state) : list cid :=
  if decide (length (_children_retired (get c s)) = g)
  then _children (get c s)
  else default [] (_children_retired (get c s) !! g).

(** ** The classes of a program *)

(** The overrides that the objects' classes supply.  A plain [Component]
    has [[]] for both hooks; a [Plugin] that inherits [onunload] has
    [[CallPluginOnunload p]]. *)
Record program := mkProgram {
  onload_of : cid → script;
  onunload_of : cid → script;
  manifest_id : cid → string
}.

(** ** [Component.ts] *)

Module Component.
Section Methods.
Variable P : program.
(** How a call made by a script is carried out; closed by [call] below. *)
Variable call : action → state → outcome.

(** The statements of a hook or a callback, one after the other. *)
Fixpoint run (sc : script) (s : state) : outcome :=
  match sc with
  | [] => Ret s
  | a :: rest => do s <- call a s; run rest s
  end.

(** [this.onload()] and [this.onunload()], resolved in the object's class. *)
Definition onload (c : cid) (s : state) : outcome :=
  run (onload_of P c) (record (EvOnload c) s).
Definition onunload (c : cid) (s : state) : outcome :=
  run (onunload_of P c) (record (EvOnunload c) s).

(** [cb()] for a registered disposable. *)
Definition dispose (cb : script) (s : state) : outcome :=
  run cb (record (EvDispose cb) s).

Definition load (c : cid) (s : state) : outcome :=
  if _loaded (get c s) then Ret s
  else
    let s := upd c (set_loaded true) s in
    onload c s.

Definition unload (c : cid) (s : state) : outcome :=
  if negb (_loaded (get c s)) then Ret s
  else
    (* Unload children first *)
    do s <- forEach_live
              (children_array c (length (_children_retired (get c s))))
              (fun child => call (CallUnload child))
              (length (_children (get c s))) 0 s;
    let s := upd c fresh_children s in
    (* Clear intervals *)
    do s <- forEach (fun id s => Ret (record (EvHost (window_clearInterval id)) s))
              (_intervals (get c s)) s;
    let s := upd c (set_intervals []) s in
    (* Run disposables *)
    do s <- forEach dispose (_disposables (get c s)) s;
    let s := upd c (set_disposables []) s in
    do s <- onunload c s;
    Ret (upd c (set_loaded false) s).

Definition register (c : cid) (cb : script) (s : state) : state :=
  upd c (fun o => set_disposables (_disposables o ++ [cb]) o) s.

Definition registerInterval (c : cid) (id : Z) (s : state) : Z * state :=
  (id, upd c (fun o => set_intervals (_intervals o ++ [id]) o) s).

Definition addChild (c x : cid) (s : state) : cid * state :=
  (x, upd c (fun o => set_children (_children o ++ [x]) o) s).

Definition removeChild (c x : cid) (s : state) : cid * state :=
  match indexOf x (_children (get c s)) with
  | Some index => (x, upd c (fun o => set_children (delete index (_children o)) o) s)
  | None => (x, s)
  end.
End Methods.
End Component.

(** ** [Plugin.ts]: the lifecycle part *)

Module Plugin.
Section Methods.
Variable P : program.

Definition onunload (p : cid) (s : state) : state :=
  (* Cleanup registered commands *)
  let s := records (map (fun id => EvHost (commands_unregister id))
                      (registeredCommands (getp p s))) s in
  (* Cleanup registered events *)
  records (map (fun ref => EvHost (events_off ref)) (registeredEvents (getp p s))) s.

Definition addCommand (p : cid) (command : Command) (s : state) : state :=
  let s := record (EvHost (commands_register command)) s in
  updp p (fun o => set_commands (registeredCommands o ++ [cmd_id command]) o) s.

Definition registerEvent (p : cid) (ref : EventRef) (s : state) : state :=
  updp p (fun o => set_events (registeredEvents o ++ [ref]) o) s.

Definition registerView (p : cid) (type : string) (s : state) : state :=
  let s := record (EvHost (workspace_registerView type)) s in
  Component.register p [Host (workspace_unregisterView type)] s.

Definition registerExtensions (p : cid) (extensions : list string) (viewType : string)
    (s : state) : state :=
  let s := record (EvHost (workspace_registerExtensions extensions viewType)) s in
  Component.register p [Host (workspace_unregisterExtensions extensions)] s.

(** [document.createElement('style')] yields an element nobody else holds:
    the next unused element number. *)
Definition loadCss (p : cid) (css : string) (s : state) : state :=
  let style := dom_next s in
  let s := mkState (comps s) (plugs s) (S (dom_next s)) (log s) in
  let s := record (EvHost (head_appendChild style
                     ("plugin-css-" +:+ manifest_id P p) css)) s in
  Component.register p [Host (element_remove style)] s.

Definition addSettingTab (p : cid) (tab : nat) (s : state) : state :=
  let s := record (EvHost (plugins_registerSettingsTab (manifest_id P p) tab)) s in
  Component.register p [Host (plugins_unregisterSettingsTab (manifest_id P p))] s.
End Methods.
End Plugin.

(** ** Carrying out calls *)

Section Dispatch.
Variable P : program.
Variable call : action → state → outcome.

Definition dispatch (a : action) (s : state) : outcome :=
  match a with
  | Note tag => Ret (record (EvNote tag) s)
  | Raise err => Exn err s
  | Host h => Ret (record (EvHost h) s)
  | CallLoad c => Component.load P call c s
  | CallUnload c => Component.unload P call c s
  | CallRegister c cb => Ret (Component.register c cb s)
  | CallRegisterInterval c id => Ret (Component.registerInterval c id s).2
  | CallAddChild c x => Ret (Component.addChild c x s).2
  | CallRemoveChild c x => Ret (Component.removeChild c x s).2
  | CallPluginOnunload p => Ret (Plugin.onunload p s)
  | CallAddCommand p cmd => Ret (Plugin.addCommand p cmd s)
  | CallRegisterEvent p ref => Ret (Plugin.registerEvent p ref s)
  | CallRegisterView p type => Ret (Plugin.registerView p type s)
  | CallRegisterExtensions p exts vt => Ret (Plugin.registerExtensions p exts vt s)
  | CallLoadCss p css => Ret (Plugin.loadCss P p css s)
  | CallAddSettingTab p tab => Ret (Plugin.addSettingTab P p tab s)
  end.
End Dispatch.

(** Calls nest; [fuel] bounds the nesting.  A call that needs more than
    [fuel] nested calls has not returned: it is [Diverge]. *)
Fixpoint call (P : program) (fuel : nat) (a : action) (s : state) : outcome :=
  match fuel with
  | 0 => Diverge
  | S fuel' => dispatch P (call P fuel') a s
  end.

(** The methods as the host calls them. *)
Definition load (P : program) (fuel : nat) (c : cid) (s : state) : outcome :=
  call P (S fuel) (CallLoad c) s.
Definition unload (P : program) (fuel : nat) (c : cid) (s : state) : outcome :=
  call P (S fuel) (CallUnload c) s.

(** ** [Plugin.ts]: settings persistence *)

(** [loadData] and [saveData] are [async]: they return a promise, which
    settles.  The file system, the path API and the module loader belong to
    the host; every call into them may fail, and changes the host's state
    [W].  What runs between two [await]s of one call is not modelled. *)
Inductive settled (A : Type) :=
| Fulfilled (a : A)
| Rejected (error : string).
Arguments Fulfilled {A} a.
Arguments Rejected {A} error.

Record host (W : Type) := mkHost {
  import_path : W → settled unit * W;
  import_fs : W → settled unit * W;
  appConfigDir : W → settled string * W;
  join : list string → W → settled string * W;
  exists_ : string → W → settled bool * W;
  mkdir : string → W → settled unit * W;
  readTextFile : string → W → settled string * W;
  writeTextFile : string → string → W → settled unit * W;
  JSON_parse : string → settled JsonValue;
  JSON_stringify : PluginSettings → settled string
}.
Arguments import_path {W} h.
Arguments import_fs {W} h.
Arguments appConfigDir {W} h.
Arguments join {W} h.
Arguments exists_ {W} h.
Arguments mkdir {W} h.
Arguments readTextFile {W} h.
Arguments writeTextFile {W} h.
Arguments JSON_parse {W} h.
Arguments JSON_stringify {W} h.

Module Async.
(** A computation on the host's state and the store. *)
Definition io (W A : Type) : Type := W * state → settled A * (W * state).

Section Monad.
Context {W : Type}.
Local Abbreviation io := (io W).

Definition ret {A} (a : A) : io A := fun ws => (Fulfilled a, ws).

Definition bind {A B} (m : io A) (k : A → io B) : io B :=
  fun ws =>
    match m ws with
    | (Fulfilled a, ws') => k a ws'
    | (Rejected e, ws') => (Rejected e, ws')
    end.

(** [try { m } catch (error) { handler(error) }] *)
Definition try_catch {A} (m : io A) (handler : string → io A) : io A :=
  fun ws =>
    match m ws with
    | (Fulfilled a, ws') => (Fulfilled a, ws')
    | (Rejected e, ws') => handler e ws'
    end.

(** [await] of a call into the host. *)
Definition await {A} (f : W → settled A * W) : io A :=
  fun ws => let '(r, w') := f ws.1 in (r, (w', ws.2)).

(** A synchronous call that returns or throws. *)
Definition eval {A} (r : settled A) : io A := fun ws => (r, ws).

Definition modify (f : state → state) : io unit :=
  fun ws => (Fulfilled tt, (ws.1, f ws.2)).

Definition read {A} (f : state → A) : io A :=
  fun ws => (Fulfilled (f ws.2), ws).
End Monad.
End Async.

Notation "'do!' x <~ m ; k" := (Async.bind m (fun x => k))
  (at level 20, x name, m at level 100, k at level 200, only parsing).

Module Settings.
Section Methods.
Context {W : Type}.
Variable h : host W.
Variable P : program.

Definition log_error (msg error : string) : Async.io W unit :=
  Async.modify (record (EvHost (console_error msg error))).

Definition getSettingsDir (p : cid) : Async.io W string :=
  do! _ <~ Async.await (import_path h) ;
  do! configDir <~ Async.await (appConfigDir h) ;
  Async.await (join h [configDir; "plugins"; manifest_id P p]).

Definition getSettingsPath (p : cid) : Async.io W string :=
  do! _ <~ Async.await (import_path h) ;
  do! settingsDir <~ getSettingsDir p ;
  Async.await (join h [settingsDir; "settings.json"]).

Definition ensureSettingsDir (p : cid) : Async.io W unit :=
  Async.try_catch
    (do! _ <~ Async.await (import_path h) ;
     do! _ <~ Async.await (import_fs h) ;
     do! configDir <~ Async.await (appConfigDir h) ;
     do! pluginsDir <~ Async.await (join h [configDir; "plugins"]) ;
     do! pluginDir <~ Async.await (join h [pluginsDir; manifest_id P p]) ;
     (* Create plugins dir if needed *)
     do! there <~ Async.await (exists_ h pluginsDir) ;
     do! _ <~ (if negb there then Async.await (mkdir h pluginsDir) else Async.ret tt) ;
     (* Create plugin-specific dir if needed *)
     do! there <~ Async.await (exists_ h pluginDir) ;
     (if negb there then Async.await (mkdir h pluginDir) else Async.ret tt))
    (fun error =>
       log_error ("Failed to create settings directory for " +:+ manifest_id P p +:+ ":") error).

(** The [try] block of [loadData]. *)
Definition loadData_try (p : cid) : Async.io W PluginSettings :=
  do! _ <~ Async.await (import_fs h) ;
  do! settingsPath <~ getSettingsPath p ;
  do! there <~ Async.await (exists_ h settingsPath) ;
  if there then
    do! data <~ Async.await (readTextFile h settingsPath) ;
    do! parsed <~ Async.eval (JSON_parse h data) ;
    do! _ <~ Async.modify (updp p (set_settings parsed)) ;
    Async.read (fun s => settingsData (getp p s))
  else Async.ret empty_settings.

Definition loadData (p : cid) : Async.io W PluginSettings :=
  Async.try_catch (loadData_try p)
    (fun error =>
       do! _ <~ log_error ("Failed to load settings for " +:+ manifest_id P p +:+ ":") error ;
       Async.ret empty_settings).

(** The [try] block of [saveData]. *)
Definition saveData_try (p : cid) (data : PluginSettings) : Async.io W unit :=
  do! _ <~ Async.await (import_fs h) ;
  do! _ <~ ensureSettingsDir p ;
  do! settingsPath <~ getSettingsPath p ;
  do! _ <~ Async.modify (updp p (set_settings data)) ;
  do! text <~ Async.eval (JSON_stringify h data) ;
  Async.await (writeTextFile h settingsPath text).

Definition saveData (p : cid) (data : PluginSettings) : Async.io W unit :=
  Async.try_catch (saveData_try p data)
    (fun error =>
       log_error ("Failed to save settings for " +:+ manifest_id P p +:+ ":") error).
End Methods.
End Settings.

(** ** [Plugin.ts]: ribbon and status bar *)

Module Ui.
(** What the code sets on an element it creates.  [el] is the identity of
    the element, [onclick] that of the handler. *)
Record HTMLElement := mkElement {
  el : nat;
  tagName : string;
  className : string;
  attributes : list (string * string);
  innerHTML : string;
  onclick : option nat
}.

Definition quote : string := String (Ascii.ascii_of_nat 34) EmptyString.

(** [document.createElement] takes the next unused element number. *)
Definition createElement (s : state) : nat * state :=
  (dom_next s, mkState (comps s) (plugs s) (S (dom_next s)) (log s)).

(** [ribbonContainer] is what [document.querySelector('.ribbon-actions')]
    returned, [None] for [null].  The result is the element, the container
    it was appended to, if any, and the store. *)
Definition addRibbonIcon (p : cid) (ribbonContainer : option nat) (icon title : string)
    (callback : nat) (s : state) : HTMLElement * option nat * state :=
  let '(e, s) := createElement s in
  let element :=
    mkElement e "button" "ribbon-action" [("aria-label", title); ("title", title)]
      ("<i class=" +:+ quote +:+ icon +:+ quote +:+ "></i>") (Some callback) in
  match ribbonContainer with
  | Some container =>
      (element, Some container, Component.register p [Host (element_remove e)] s)
  | None => (element, None, s)
  end.

(** [statusBar] is what [document.querySelector('.status-bar')] returned. *)
Definition addStatusBarItem (p : cid) (statusBar : option nat) (s : state)
    : HTMLElement * option nat * state :=
  let '(e, s) := createElement s in
  let element :=
    mkElement e "div" "status-bar-item plugin-status-bar-item" [] EmptyString None in
  match statusBar with
  | Some container =>
      (element, Some container, Component.register p [Host (element_remove e)] s)
  | None => (element, None, s)
  end.
End Ui.

(** * Vocabulary of the statements *)

(** ** Scripts that only talk to the outside *)

(** A quiet script leaves the store of components alone: it notes
    something, calls the host, or runs [Plugin.onunload], which does nothing
    but call the host. *)
Definition external (a : action) : bool :=
  match a with
  | Note _ | Host _ | CallPluginOnunload _ => true
  | _ => false
  end.

Definition quiet (sc : script) : bool := forallb external sc.

(** What [Plugin.onunload] sends to the host. *)
Definition plugin_cleanup (o : plugin) : list event :=
  map (fun id => EvHost (commands_unregister id)) (registeredCommands o)
  ++ map (fun ref => EvHost (events_off ref)) (registeredEvents o).

(** What a quiet script appends to the recorded sequence, given the plugins'
    fields. *)
Definition effect (pl : gmap cid plugin) (a : action) : list event :=
  match a with
  | Note tag => [EvNote tag]
  | Host h => [EvHost h]
  | CallPluginOnunload p => plugin_cleanup (default new_plugin (pl !! p))
  | _ => []
  end.

Definition effects (pl : gmap cid plugin) (sc : script) : list event :=
  sc ≫= effect pl.

(** ** A tree of components, as a value *)

(** [Node c b kids timers disps]: the object [c], its loaded flag, the
    subtrees of its children in insertion order, its timers and its
    disposables. *)
Inductive tree :=
| Node (c : cid) (b : bool) (kids : list tree) (timers : list Z) (disps : list script).

Definition root (t : tree) : cid := match t with Node c _ _ _ _ => c end.

Fixpoint nodes (t : tree) : list cid :=
  match t with Node c _ kids _ _ => c :: (kids ≫= nodes) end.

(** The nodes that a teardown from the root reaches: a child that is not
    loaded stops the cascade. *)
Fixpoint live (t : tree) : list cid :=
  match t with
  | Node c b kids _ _ => if b then c :: (kids ≫= live) else []
  end.

Fixpoint height (t : tree) : nat :=
  match t with Node _ _ kids _ _ => S (max_list (map height kids)) end.

Definition dispose_trace (pl : gmap cid plugin) (cb : script) : list event :=
  EvDispose cb :: effects pl cb.

Definition cancel_trace (timers : list Z) : list event :=
  map (fun id => EvHost (window_clearInterval id)) timers.

(** The invocation sequence that the specification prescribes for the
    teardown of a tree. *)
Fixpoint trace (P : program) (pl : gmap cid plugin) (t : tree) : list event :=
  match t with
  | Node c b kids timers disps =>
      if b then
        (kids ≫= trace P pl)
        ++ cancel_trace timers
        ++ (disps ≫= dispose_trace pl)
        ++ EvOnunload c :: effects pl (onunload_of P c)
      else []
  end.

(** The store holds the tree [t], and the code attached to it is quiet. *)
Inductive shape (P : program) (s : state) : tree → Prop :=
| shape_node c b kids timers disps :
    _loaded (get c s) = b →
    _children (get c s) = map root kids →
    _intervals (get c s) = timers →
    _disposables (get c s) = disps →
    Forall (fun cb => quiet cb = true) disps →
    quiet (onunload_of P c) = true →
    Forall (shape P s) kids →
    shape P s (Node c b kids timers disps).

(** A component as its constructor left it, the ghost field apart. *)
Definition pristine (o : component) : Prop :=
  _loaded o = false ∧ _children o = [] ∧ _intervals o = [] ∧ _disposables o = [].

(** [s'] is [s] after the teardown of the trees [ts], which recorded [tr]. *)
Record torn (ts : list tree) (tr : list event) (s s' : state) : Prop := mkTorn {
  torn_log : log s' = log s ++ tr;
  torn_plugs : plugs s' = plugs s;
  torn_dom : dom_next s' = dom_next s;
  torn_live : ∀ x, x ∈ ts ≫= live → pristine (get x s');
  torn_rest : ∀ x, x ∉ ts ≫= live → get x s' = get x s
}.

(** What the teardown of one tree achieves; the induction hypothesis of
    [unload_tree] for a child. *)
Definition unloads (P : program) (t : tree) : Prop :=
  ∀ s fuel, shape P s t → NoDup (nodes t) → height t < fuel →
    ∃ s', call P fuel (CallUnload (root t)) s = Ret s'
          ∧ torn [t] (trace P (plugs s) t) s s'.

(** ** The five phases of [unload()], in the words of the specification *)

(** What the specification prescribes for a loaded node: five phases, each
    completed before the next begins.  To be compared with
    [Component.unload]. *)
Module Phases.
Section Phases.
Variable P : program.
Variable call : action → state → outcome.

(** (1) call [unload()] on every child in insertion order, then clear the
    child collection *)
Definition children (c : cid) (s : state) : outcome :=
  do s <- forEach (fun child => call (CallUnload child)) (_children (get c s)) s;
  Ret (upd c fresh_children s).

(** (2) cancel every registered timer handle, then clear the timer
    collection *)
Definition timers (c : cid) (s : state) : outcome :=
  do s <- forEach (fun id s => Ret (record (EvHost (window_clearInterval id)) s))
            (_intervals (get c s)) s;
  Ret (upd c (set_intervals []) s).

(** (3) invoke every disposable callback in registration order, then clear
    the disposable collection *)
Definition disposables (c : cid) (s : state) : outcome :=
  do s <- forEach (Component.dispose call) (_disposables (get c s)) s;
  Ret (upd c (set_disposables []) s).

(** (4) invoke the subclass teardown hook *)
Definition hook (c : cid) (s : state) : outcome := Component.onunload P call c s.

(** (5) set loaded-state to false *)
Definition flag (c : cid) (s : state) : outcome := Ret (upd c (set_loaded false) s).

Definition unload (c : cid) (s : state) : outcome :=
  do s <- children c s;
  do s <- timers c s;
  do s <- disposables c s;
  do s <- hook c s;
  flag c s.
End Phases.
End Phases.

(** Each time the turn of a place comes in the cascade that [c.unload()]
    starts in [s], the array that is walked holds at that place the child
    that it held at the start: the calls made so far have not moved it. *)
Definition steady (call : action → state → outcome) (c : cid) (s : state) : Prop :=
  ∀ n s', n < length (_children (get c s)) →
    forEach (fun child => call (CallUnload child)) (take n (_children (get c s))) s = Ret s' →
    children_array c (length (_children_retired (get c s))) s' !! n
    = _children (get c s) !! n.

(** The nodes of a list in the order in which they first occur in it, those
    in [seen] apart. *)
Fixpoint firsts_from (seen l : list cid) : list cid :=
  match l with
  | [] => []
  | x :: r =>
      if decide (x ∈ seen) then firsts_from seen r else x :: firsts_from (x :: seen) r
  end.

Definition firsts (l : list cid) : list cid := firsts_from [] l.

(** ** Calling a method several times in a row *)

Fixpoint times (n : nat) (m : state → outcome) (s : state) : outcome :=
  match n with
  | 0 => Ret s
  | S n' => do s <- m s; times n' m s
  end.

(** How often [c.onload()] was entered according to a recorded sequence. *)
Definition is_onload (c : cid) (e : event) : bool :=
  match e with
  | EvOnload c' => bool_decide (c' = c)
  | _ => false
  end.
Definition onload_count (c : cid) (l : list event) : nat :=
  length (filter (fun e => is_onload c e = true) l).

(** A hook that talks to the outside and calls [this.load()] again. *)
Definition reentrant (c : cid) (a : action) : bool :=
  match a with
  | CallLoad c' => bool_decide (c' = c)
  | _ => external a
  end.

(** ** Initialization code *)

(** The store in which a call that returned or threw has left off. *)
Definition final (o : outcome) (s' : state) : Prop :=
  match o with
  | Ret s | Exn _ s => s = s'
  | Diverge => False
  end.

Definition is_unload (a : action) : bool :=
  match a with CallUnload _ => true | _ => false end.

(** No initialization hook of the program calls [unload()]. *)
Definition never_unloads (P : program) : Prop :=
  ∀ x, forallb (fun a => negb (is_unload a)) (onload_of P x) = true.

(** [a] returns within [n] nested calls when the nodes in [loading] are
    loaded: it is no [throw] and no [unload()], and if it is the [load()] of
    a node that is not in [loading], the statements of that node's
    initialization hook return within [n - 1] nested calls. *)
Fixpoint returns_within (P : program) (n : nat) (loading : list cid) (a : action) : bool :=
  match n with
  | 0 => false
  | S n' =>
      match a with
      | Raise _ | CallUnload _ => false
      | CallLoad x =>
          bool_decide (x ∈ loading)
          || forallb (returns_within P n' (x :: loading)) (onload_of P x)
      | _ => true
      end
  end.

(** [sc] is the body of a function that is not [async] and throws [err]
    after the quiet statements [qs]. *)
Definition throws_synchronously (sc qs : script) (err : string) : Prop :=
  quiet qs = true ∧ ∃ rest, sc = qs ++ Raise err :: rest.

(** How many callbacks were invoked according to a recorded sequence. *)
Definition is_disposal (e : event) : bool :=
  match e with EvDispose _ => true | _ => false end.
Definition disposals (l : list event) : nat :=
  length (filter (fun e => is_disposal e = true) l).

(** [s'] is [s] after code that loads and registers but never unloads: a
    loaded node is still loaded and its initialization hook has not been
    entered again, the disposables have at most grown at the end, and no
    callback has been invoked. *)
Record started (s s' : state) : Prop := mkStarted {
  started_loaded : ∀ x, _loaded (get x s) = true →
    _loaded (get x s') = true ∧ onload_count x (log s') = onload_count x (log s);
  started_queue : ∀ x, _disposables (get x s) `prefix_of` _disposables (get x s');
  started_disposals : disposals (log s') = disposals (log s)
}.

(** Events that a note or a call into the host leaves. *)
Definition outside (e : event) : bool :=
  match e with EvNote _ | EvHost _ => true | _ => false end.

(** ** Registration methods of [Plugin] *)

(** The host call that takes back a registration. *)
Definition undo_of (h : host_call) : option host_call :=
  match h with
  | commands_register cmd => Some (commands_unregister (cmd_id cmd))
  | workspace_registerView type => Some (workspace_unregisterView type)
  | workspace_registerExtensions extensions _ => Some (workspace_unregisterExtensions extensions)
  | plugins_registerSettingsTab pluginId _ => Some (plugins_unregisterSettingsTab pluginId)
  | head_appendChild el _ _ => Some (element_remove el)
  | _ => None
  end.

(** [s'] is [s] after the host call [h] and one [register] on [p] of a
    callback that does nothing but undo [h]. *)
Definition sugar (p : cid) (h : host_call) (s s' : state) : Prop :=
  ∃ h', undo_of h = Some h'
    ∧ log s' = log s ++ [EvHost h]
    ∧ get p s' = set_disposables (_disposables (get p s) ++ [[Host h']]) (get p s)
    ∧ (∀ y, y ≠ p → get y s' = get y s)
    ∧ plugs s' = plugs s.

(** [s'] is [s] with at most the plugin fields of [p] and the recorded
    sequence changed: no component, no disposable list has been touched. *)
Definition bookkeeping (s s' : state) : Prop :=
  comps s' = comps s ∧ dom_next s' = dom_next s.

(** ** Code that never adds to a node *)

(** [a] may add an entry to a collection of [c]: it adds one itself, it
    registers a callback that may, or it loads a node outside [L], whose
    initialization hook then runs. *)
Fixpoint may_add (L : cid → bool) (c : cid) (a : action) : bool :=
  match a with
  | CallRegister c' cb => bool_decide (c' = c) || existsb (may_add L c) cb
  | CallRegisterInterval c' _ => bool_decide (c' = c)
  | CallAddChild c' _ => bool_decide (c' = c)
  | CallRegisterView p _ => bool_decide (p = c)
  | CallRegisterExtensions p _ _ => bool_decide (p = c)
  | CallLoadCss p _ => bool_decide (p = c)
  | CallAddSettingTab p _ => bool_decide (p = c)
  | CallLoad x => negb (L x)
  | _ => false
  end.

(** The same for a statement of a disposable of [c] itself, which runs
    before [c.unload()] replaces the disposables list: what it registers on
    [c] goes with that list, so it may register on [c], callbacks that are
    held to as much. *)
Fixpoint may_add_late (L : cid → bool) (c : cid) (a : action) : bool :=
  match a with
  | CallRegister c' cb =>
      if bool_decide (c' = c) then existsb (may_add_late L c) cb
      else existsb (may_add L c) cb
  | CallRegisterInterval c' _ => bool_decide (c' = c)
  | CallAddChild c' _ => bool_decide (c' = c)
  | CallLoad x => negb (L x)
  | _ => false
  end.

Definition spares (L : cid → bool) (c : cid) (sc : script) : bool :=
  forallb (fun a => negb (may_add L c a)) sc.
Definition spares_late (L : cid → bool) (c : cid) (sc : script) : bool :=
  forallb (fun a => negb (may_add_late L c a)) sc.

(** The hooks that a teardown can reach spare [c]: the teardown hooks of the
    program and the initialization hooks of the nodes in [L] (those that
    teardown code may load). *)
Definition spared_code (P : program) (L : cid → bool) (c : cid) : Prop :=
  ∀ x, spares L c (onunload_of P x) = true
       ∧ (L x = true → spares L c (onload_of P x) = true).

(** The two at once, for the proofs. *)
Definition adds (late : bool) (L : cid → bool) (c : cid) (a : action) : bool :=
  if late then may_add_late L c a else may_add L c a.

(** The disposables in the store spare [c]; with [late], those of [c] itself
    need only do so as far as [may_add_late] goes. *)
Definition spares_at (late : bool) (L : cid → bool) (c : cid) (sc : script) : bool :=
  if late then spares_late L c sc else spares L c sc.
Definition spared_store (late : bool) (L : cid → bool) (c : cid) (s : state) : Prop :=
  ∀ x cb, cb ∈ _disposables (get x s) →
    spares_at (late && bool_decide (x = c)) L c cb = true.

(** The collections of [o'] hold nothing that those of [o] did not; with
    [late], nothing is said of the disposables. *)
Definition shrunk (late : bool) (o' o : component) : Prop :=
  _children o' `sublist_of` _children o
  ∧ _intervals o' `sublist_of` _intervals o
  ∧ (late = false → _disposables o' `sublist_of` _disposables o).

Definition tame (late : bool) (L : cid → bool) (c : cid) (s s' : state) : Prop :=
  spared_store late L c s' ∧ shrunk late (get c s') (get c s).

(** ** Persistence and the lifecycle *)

(** [m] leaves every component as it is, and of the plugins' fields it
    changes at most [settingsData]; the recorded sequence may grow. *)
Definition gentle {W A} (m : Async.io W A) : Prop :=
  ∀ ws r ws', m ws = (r, ws') →
    comps ws'.2 = comps ws.2
    ∧ dom_next ws'.2 = dom_next ws.2
    ∧ ∀ q, registeredCommands (getp q ws'.2) = registeredCommands (getp q ws.2)
           ∧ registeredEvents (getp q ws'.2) = registeredEvents (getp q ws.2)
           ∧ enabled (getp q ws'.2) = enabled (getp q ws.2).

(** ** Disposables that register disposables *)

(** [a] talks to the outside or calls [c.register(..)]. *)
Definition registers_on (c : cid) (a : action) : bool :=
  match a with
  | CallRegister c' _ => bool_decide (c' = c)
  | _ => external a
  end.

(** The callbacks that a script hands to [register]. *)
Definition handed_over (sc : script) : list script :=
  sc ≫= fun a => match a with CallRegister _ cb => [cb] | _ => [] end.

(** * Concrete programs and stores *)

(** The scenario of the specification. *)
Module Scenario.
(** Root 0 registers child 1 and a disposable in its [onload]; the child
    is loaded by its parent. *)
Definition D : script := [Note "cleanup-ran"].
Definition prog : program :=
  mkProgram
    (fun c => match c with
              | 0 => [CallAddChild 0 1; CallLoad 1; CallRegister 0 D]
              | _ => []
              end)
    (fun _ => [])
    (fun _ => "demo").
Definition after_load : outcome := load prog 5 0 initial.
(** The store that [R.load()] leaves. *)
Definition loaded : state :=
  records [EvOnload 0; EvOnload 1]
    (upd 0 (fun _ => mkComponent true [1] [] [] [D]) (upd 1 (set_loaded true) initial)).
Definition after_unload : outcome := do s <- after_load; unload prog 5 0 s.
End Scenario.

Module Family.
(** Node 0 is loaded and owns the loaded children 1, 2, 3 (added in that
    order), the timer 7 and the disposables [d1], [d2]. *)
Definition d1 : script := [Note "d1"].
Definition d2 : script := [Note "d2"].
Definition prog : program :=
  mkProgram (fun _ => [Note "hello"]) (fun _ => [Note "bye"]) (fun _ => "family").
(** The same classes, with an [onload] that calls [this.load()] again. *)
Definition eager : program :=
  mkProgram (fun c => [Note "hello"; CallLoad c; Note "done"]) (fun _ => [Note "bye"])
    (fun _ => "family").
Definition leaf (c : cid) : tree := Node c true [] [] [].
Definition t : tree := Node 0 true [leaf 1; leaf 2; leaf 3] [7%Z] [d1; d2].
Definition s : state :=
  upd 0 (fun _ => mkComponent true [1; 2; 3] [] [7%Z] [d1; d2])
    (upd 1 (set_loaded true) (upd 2 (set_loaded true) (upd 3 (set_loaded true) initial))).
End Family.

Module Faulty.
(** The family of [Family], with a disposable between [d1] and [d2] that
    throws half way. *)
Definition bad : script := [Note "half"] ++ Raise "boom" :: [Note "never"].
Definition s : state :=
  upd 0 (fun _ => mkComponent true [1; 2; 3] [] [7%Z] ([Family.d1] ++ bad :: [Family.d2]))
    (upd 1 (set_loaded true) (upd 2 (set_loaded true) (upd 3 (set_loaded true) initial))).
Definition kids : list tree := [Family.leaf 1; Family.leaf 2; Family.leaf 3].
End Faulty.

Module Late.
(** A class whose teardown hook registers a disposable on its own
    instance. *)
Definition cb : script := [Note "late"].
Definition prog : program :=
  mkProgram (fun _ => []) (fun c => [CallRegister c cb]) (fun _ => "late").
Definition s : state := upd 0 (set_loaded true) initial.
End Late.

Module Greeter.
(** The plugin of the README, with the inherited [onunload]. *)
Definition cmd : Command := {| cmd_id := "my-command"; cmd_name := "My Command" |}.
Definition ref : EventRef := {| ev_event := "file-open"; ev_callback := 0 |}.
Definition prog : program :=
  mkProgram (fun p => [CallAddCommand p cmd; CallRegisterEvent p ref])
    (fun p => [CallPluginOnunload p]) (fun _ => "my-plugin").
End Greeter.

Module Memory.
(** A host whose file system is a map from paths to contents and whose
    [JSON.parse] knows [{}] only. *)
Definition fs := gmap string string.
Definition h : host fs :=
  mkHost fs
    (fun w => (Fulfilled tt, w))
    (fun w => (Fulfilled tt, w))
    (fun w => (Fulfilled "/config", w))
    (fun parts w => (Fulfilled (String.concat "/" parts), w))
    (fun path w => (Fulfilled (bool_decide (is_Some (w !! path))), w))
    (fun path w => (Fulfilled tt, <[path := "<dir>"]> w))
    (fun path w => match w !! path with
                   | Some text => (Fulfilled text, w)
                   | None => (Rejected "ENOENT", w)
                   end)
    (fun path text w => (Fulfilled tt, <[path := text]> w))
    (fun text => if String.eqb text "{}" then Fulfilled (JObject [])
                 else Rejected "SyntaxError")
    (fun _ => Fulfilled "{}").
(** A settings file that is not JSON. *)
Definition garbled : fs := {[ "/config/plugins/my-plugin/settings.json" := "{oops" ]}.
End Memory.

Module Selfish.
(** The family of [Family] with a class for child 1 whose teardown hook
    takes the child out of its parent. *)
Definition prog : program :=
  mkProgram (fun _ => [])
    (fun c => match c with 1 => [CallRemoveChild 0 1] | _ => [] end)
    (fun _ => "selfish").
End Selfish.

Module Fragile.
(** Classes whose hooks throw half way. *)
Definition prog : program :=
  mkProgram (fun _ => [Note "start"] ++ Raise "init failed" :: [Note "unreachable"])
    (fun _ => [Note "closing"] ++ Raise "teardown failed" :: [Note "unreachable"])
    (fun _ => "fragile").
End Fragile.

Module Mixed.
(** Node 0 is loaded; its child 1 is loaded, its child 2 was added but never
    loaded and has the timer 5 and the disposable [Family.d1] queued. *)
Definition idle : tree := Node 2 false [] [5%Z] [Family.d1].
Definition s : state :=
  upd 0 (fun _ => mkComponent true [1; 2] [] [] [])
    (upd 1 (set_loaded true)
       (upd 2 (fun _ => mkComponent false [] [] [5%Z] [Family.d1]) initial)).
End Mixed.

Module Stubborn.
(** The classes of [Family], except that the teardown hook of component 2
    throws. *)
Definition prog : program :=
  mkProgram (fun _ => [])
    (fun c => match c with
              | 2 => [Note "closing"] ++ Raise "teardown failed" :: []
              | _ => [Note "bye"]
              end)
    (fun _ => "stubborn").
End Stubborn.

Module Readme.
(** The plugin of the README as it is written there: [onunload] is
    overridden and does not call [super.onunload()]. *)
Definition prog : program :=
  mkProgram (fun p => [CallAddCommand p Greeter.cmd])
    (fun _ => map Note ["Plugin unloaded!"]) (fun _ => "my-plugin").
End Readme.

Module Disk.
(** A host with an orderly file system: files and directories are kept in
    two maps, nothing fails but reading a file that is not there, and the
    JSON codec [parse], [stringify] is left open. *)
Record t := mk { files : gmap string string; dirs : gset string }.

Definition h (parse : string → settled JsonValue)
    (stringify : PluginSettings → settled string) : host t :=
  mkHost t
    (fun w => (Fulfilled tt, w))
    (fun w => (Fulfilled tt, w))
    (fun w => (Fulfilled "/config", w))
    (fun parts w => (Fulfilled (String.concat "/" parts), w))
    (fun path w => (Fulfilled (bool_decide (path ∈ dirs w ∨ is_Some (files w !! path))), w))
    (fun path w => (Fulfilled tt, mk (files w) ({[path]} ∪ dirs w)))
    (fun path w => match files w !! path with
                   | Some text => (Fulfilled text, w)
                   | None => (Rejected "ENOENT", w)
                   end)
    (fun path text w => (Fulfilled tt, mk (<[path := text]> (files w)) (dirs w)))
    parse stringify.

(** [{appConfigDir}/plugins/{pluginId}/settings.json] on this host. *)
Definition settings_path (P : program) (p : cid) : string :=
  String.concat "/" [String.concat "/" ["/config"; "plugins"; manifest_id P p]; "settings.json"].

Definition empty : t := mk ∅ ∅.
End Disk.

Module ReadOnly.
(** The host of [Disk] on a medium that refuses every write. *)
Definition h : host Disk.t :=
  mkHost Disk.t
    (fun w => (Fulfilled tt, w))
    (fun w => (Fulfilled tt, w))
    (fun w => (Fulfilled "/config", w))
    (fun parts w => (Fulfilled (String.concat "/" parts), w))
    (fun path w => (Fulfilled (bool_decide (path ∈ Disk.dirs w
                                            ∨ is_Some (Disk.files w !! path))), w))
    (fun path w => (Rejected "EROFS", w))
    (fun path w => match Disk.files w !! path with
                   | Some text => (Fulfilled text, w)
                   | None => (Rejected "ENOENT", w)
                   end)
    (fun path text w => (Rejected "EROFS", w))
    (fun _ => Rejected "SyntaxError")
    (fun _ => Fulfilled "{}").
End ReadOnly.

Module Chained.
(** A loaded component whose only disposable registers a further one on the
    same component. *)
Definition late : script := [Note "late"].
Definition first : script := [Note "first"; CallRegister 0 late].
Definition s : state := upd 0 (fun _ => mkComponent true [] [] [] [first]) initial.
End Chained.

Module Restless.
(** A class whose initialization hook unloads the instance. *)
Definition prog : program :=
  mkProgram (fun c => [CallUnload c]) (fun _ => []) (fun _ => "restless").
End Restless.

Module Twice.
(** A loaded component whose only disposable registers the same callback
    twice on that component. *)
Definition late : script := [Note "late"].
Definition twice : script := [CallRegister 0 late; CallRegister 0 late].
Definition s : state := upd 0 (fun _ => mkComponent true [] [] [] [twice]) initial.
End Twice.

Module Doubled.
(** Node 0 is loaded and had [addChild] called with the loaded nodes 1, 1
    and 2, in that order. *)
Definition s : state :=
  (Component.addChild 0 2
     (Component.addChild 0 1
        (Component.addChild 0 1
           (upd 0 (set_loaded true)
              (upd 1 (set_loaded true) (upd 2 (set_loaded true) initial)))).2).2).2.
End Doubled.

(** * Proofs *)

Example scenario_order :
  match Scenario.after_unload with
  | Ret s => log s = [EvOnload 0; EvOnload 1; EvOnunload 1; EvDispose Scenario.D;
                      EvNote "cleanup-ran"; EvOnunload 0]
             ∧ _loaded (get 0 s) = false
  | _ => False
  end.
Proof. vm_compute. split; reflexivity. Qed.

(** [forEach] reads the array it walks at every step: when child 1 removes
    itself from its parent during the cascade, its siblings move down and
    child 2 is passed over, as in JavaScript. *)
Example removal_during_cascade :
  match unload Selfish.prog 3 0 Family.s with
  | Ret s => log s = [EvOnunload 1; EvOnunload 3; EvHost (window_clearInterval 7);
                      EvDispose Family.d1; EvNote "d1"; EvDispose Family.d2; EvNote "d2";
                      EvOnunload 0]
             ∧ _loaded (get 2 s) = true
  | _ => False
  end.
Proof. vm_compute. split; reflexivity. Qed.

(** ** Reading the store *)

Lemma get_upd_eq c f s : get c (upd c f s) = f (get c s).
Proof. unfold get at 1, upd; simpl. by rewrite lookup_insert_eq. Qed.

Lemma get_upd_ne c c' f s : c ≠ c' → get c' (upd c f s) = get c' s.
Proof. intros H. unfold get, upd; simpl. by rewrite lookup_insert_ne. Qed.

Lemma get_record c e s : get c (record e s) = get c s.
Proof. reflexivity. Qed.

Lemma get_records c es s : get c (records es s) = get c s.
Proof. reflexivity. Qed.

Lemma get_updp c p f s : get c (updp p f s) = get c s.
Proof. reflexivity. Qed.

Lemma getp_updp_eq p f s : getp p (updp p f s) = f (getp p s).
Proof. unfold getp at 1, updp; simpl. by rewrite lookup_insert_eq. Qed.

Lemma getp_updp_ne p p' f s : p ≠ p' → getp p' (updp p f s) = getp p' s.
Proof. intros H. unfold getp, updp; simpl. by rewrite lookup_insert_ne. Qed.

Lemma log_upd c f s : log (upd c f s) = log s.
Proof. reflexivity. Qed.
Lemma log_updp p f s : log (updp p f s) = log s.
Proof. reflexivity. Qed.
Lemma log_record e s : log (record e s) = log s ++ [e].
Proof. reflexivity. Qed.
Lemma log_records es s : log (records es s) = log s ++ es.
Proof. reflexivity. Qed.
Lemma plugs_upd c f s : plugs (upd c f s) = plugs s.
Proof. reflexivity. Qed.
Lemma plugs_record e s : plugs (record e s) = plugs s.
Proof. reflexivity. Qed.
Lemma plugs_records es s : plugs (records es s) = plugs s.
Proof. reflexivity. Qed.
Lemma dom_upd c f s : dom_next (upd c f s) = dom_next s.
Proof. reflexivity. Qed.
Lemma dom_record e s : dom_next (record e s) = dom_next s.
Proof. reflexivity. Qed.
Lemma dom_records es s : dom_next (records es s) = dom_next s.
Proof. reflexivity. Qed.

Create Rewrite HintDb store.
#[export] Hint Rewrite get_upd_eq get_record get_records get_updp getp_updp_eq
  log_upd log_updp log_record log_records plugs_upd plugs_record plugs_records
  dom_upd dom_record dom_records : store.

Lemma records_nil s : records [] s = s.
Proof. destruct s; unfold records; simpl. by rewrite app_nil_r. Qed.

Lemma records_app es1 es2 s : records es2 (records es1 s) = records (es1 ++ es2) s.
Proof. unfold records; simpl. by rewrite app_assoc. Qed.

Lemma record_records e s : record e s = records [e] s.
Proof. reflexivity. Qed.

Lemma onunload_records p s :
  Plugin.onunload p s = records (plugin_cleanup (getp p s)) s.
Proof. unfold Plugin.onunload, plugin_cleanup. by rewrite records_app. Qed.

(** ** Running quiet code *)

Lemma run_quiet P fuel sc s :
  quiet sc = true →
  Component.run (call P (S fuel)) sc s = Ret (records (effects (plugs s) sc) s).
Proof.
  revert s. induction sc as [|a sc IH]; intros s Hq.
  - by rewrite records_nil.
  - apply andb_prop in Hq as [Ha Hq].
    cbn [Component.run].
    assert (call P (S fuel) a s = Ret (records (effect (plugs s) a) s)) as ->.
    { destruct a; try discriminate Ha; simpl; try done.
      by rewrite onunload_records. }
    cbn [bind]. rewrite IH by done. by rewrite records_app.
Qed.

Lemma forEach_cancel timers s :
  forEach (fun id s => Ret (record (EvHost (window_clearInterval id)) s)) timers s
  = Ret (records (cancel_trace timers) s).
Proof.
  revert s. induction timers as [|id l IH]; intros s; simpl.
  - by rewrite records_nil.
  - by rewrite IH, record_records, records_app.
Qed.

Lemma forEach_dispose_quiet P fuel disps s :
  Forall (fun cb => quiet cb = true) disps →
  forEach (Component.dispose (call P (S fuel))) disps s
  = Ret (records (disps ≫= dispose_trace (plugs s)) s).
Proof.
  intros H. revert s. induction H as [|cb l Hcb _ IH]; intros s.
  - by rewrite records_nil.
  - cbn [forEach]. unfold Component.dispose at 1.
    rewrite run_quiet by done. cbn [bind].
    rewrite IH. rewrite record_records, !records_app. done.
Qed.

(** ** Trees: induction and framing *)

Lemma tree_induction (Q : tree → Prop) :
  (∀ c b kids timers disps, Forall Q kids → Q (Node c b kids timers disps)) →
  ∀ t, Q t.
Proof.
  intros H. fix IH 1. intros [c b kids timers disps]. apply H.
  induction kids as [|k kids IHk]; constructor; [apply IH | apply IHk].
Qed.

Lemma live_nodes t x : x ∈ live t → x ∈ nodes t.
Proof.
  revert x. induction t as [c b kids timers disps IH] using tree_induction.
  intros x. cbn [live nodes]. destruct b; [|by intros ?%elem_of_nil].
  rewrite !elem_of_cons, !list_elem_of_bind.
  intros [->|(k & Hx & Hk)]; [by left|right].
  exists k. split; [|done]. rewrite Forall_forall in IH. by apply IH.
Qed.

Lemma live_forest_nodes (ts : list tree) x : x ∈ ts ≫= live → x ∈ ts ≫= nodes.
Proof.
  rewrite !list_elem_of_bind. intros (k & Hx & Hk).
  exists k. split; [by apply live_nodes|done].
Qed.

Lemma shape_frame P s s' t :
  (∀ x, x ∈ nodes t → get x s' = get x s) → shape P s t → shape P s' t.
Proof.
  induction t as [c b kids timers disps IH] using tree_induction.
  intros Hfr Hsh. inversion Hsh; subst.
  assert (get c s' = get c s) as Hc by (apply Hfr; cbn [nodes]; apply list_elem_of_here).
  constructor; rewrite ?Hc; try done.
  rewrite Forall_forall in IH. rewrite Forall_forall. intros k Hk.
  apply IH; [done| |].
  - intros x Hx. apply Hfr. cbn [nodes]. apply list_elem_of_further.
    apply list_elem_of_bind. eauto.
  - match goal with H : Forall (shape P s) kids |- _ => rewrite Forall_forall in H; by apply H end.
Qed.

Lemma torn_nil s : torn [] [] s s.
Proof.
  split; try done.
  - by rewrite app_nil_r.
  - by intros x ?%elem_of_nil.
Qed.

Lemma torn_cons t ts tr1 tr2 s s1 s2 :
  (∀ x, x ∈ live t → x ∉ ts ≫= live) →
  torn [t] tr1 s s1 → torn ts tr2 s1 s2 → torn (t :: ts) (tr1 ++ tr2) s s2.
Proof.
  intros Hdis [L1 P1 D1 V1 R1] [L2 P2 D2 V2 R2].
  assert (∀ x, x ∈ [t] ≫= live ↔ x ∈ live t) as Hone.
  { intros x. cbn. by rewrite app_nil_r. }
  split.
  - by rewrite L2, L1, app_assoc.
  - congruence.
  - congruence.
  - intros x. cbn. rewrite elem_of_app. intros [Hx|Hx].
    + rewrite R2 by by apply Hdis. apply V1. by apply Hone.
    + by apply V2.
  - intros x. cbn. rewrite elem_of_app. intros Hx.
    rewrite R2 by tauto. apply R1. rewrite Hone. tauto.
Qed.

Lemma unload_kids P fuel c g kids :
  Forall (unloads P) kids →
  ∀ seen s,
    _children (get c s) = map root (seen ++ kids) →
    length (_children_retired (get c s)) = g →
    c ∉ kids ≫= nodes →
    NoDup (kids ≫= nodes) →
    Forall (shape P s) kids →
    Forall (fun k => height k < fuel) kids →
    ∃ s', forEach_live (children_array c g) (fun child => call P fuel (CallUnload child))
            (length kids) (length seen) s = Ret s'
          ∧ torn kids (kids ≫= trace P (plugs s)) s s'.
Proof.
  induction 1 as [|k kids Hk _ IH]; intros seen s Hch Hg Hc Hnd Hsh Hh.
  - exists s. split; [done|apply torn_nil].
  - cbn [length forEach_live].
    assert (children_array c g s !! length seen = Some (root k)) as ->.
    { unfold children_array. rewrite decide_True by done. rewrite Hch, map_app.
      cbn [map]. apply list_lookup_middle. by rewrite length_map. }
    cbn in Hc, Hnd. apply NoDup_app in Hnd as (Hndk & Hdis & Hndr).
    apply not_elem_of_app in Hc as [Hck Hcr].
    inversion Hsh as [|? ? Hshk Hshr]; subst.
    inversion Hh as [|? ? Hhk Hhr]; subst.
    destruct (Hk s fuel Hshk Hndk Hhk) as (s1 & -> & T1). cbn [bind].
    assert (∀ x, x ∉ live k → get x s1 = get x s) as Hfr.
    { intros x Hx. apply (torn_rest _ _ _ _ T1). cbn. by rewrite app_nil_r. }
    destruct (IH (seen ++ [k]) s1) as (s2 & Heq & T2).
    + rewrite Hfr by (intros ?%live_nodes; done).
      by rewrite <- app_assoc.
    + by rewrite Hfr by (intros ?%live_nodes; done).
    + done.
    + done.
    + rewrite Forall_forall in Hshr. rewrite Forall_forall. intros k' Hk'.
      eapply shape_frame; [|by apply Hshr].
      intros x Hx. apply Hfr. intros Hl%live_nodes.
      apply (Hdis x Hl). apply list_elem_of_bind. eauto.
    + done.
    + exists s2. split.
      * rewrite length_app in Heq. cbn in Heq.
        by replace (length seen + 1) with (S (length seen)) in Heq by lia.
      * cbn [mbind list_bind]. rewrite <- (torn_plugs _ _ _ _ T1) at 2.
        eapply torn_cons; [|done|done].
        intros x Hl Hr. apply (Hdis x); [by apply live_nodes|by apply live_forest_nodes].
Qed.

Lemma torn_single t tr s s' : torn [t] tr s s' →
  (∀ x, x ∈ live t → pristine (get x s')) ∧ (∀ x, x ∉ live t → get x s' = get x s).
Proof.
  intros [_ _ _ V R]. cbn in V, R. rewrite app_nil_r in V, R. done.
Qed.

(** A loaded node whose children are quiet trees: [unload] tears the
    children down and cancels the timers, and then goes on with the
    disposables. *)
Lemma unload_through_timers P fuel c kids timers disps s :
  _loaded (get c s) = true →
  _children (get c s) = map root kids →
  _intervals (get c s) = timers →
  _disposables (get c s) = disps →
  Forall (unloads P) kids →
  c ∉ kids ≫= nodes →
  NoDup (kids ≫= nodes) →
  Forall (shape P s) kids →
  Forall (fun k => height k < fuel) kids →
  ∃ s1, torn kids (kids ≫= trace P (plugs s)) s s1
    ∧ get c s1 = get c s
    ∧ Component.unload P (call P fuel) c s =
        (let s2 := upd c (set_intervals [])
                     (records (cancel_trace timers) (upd c fresh_children s1)) in
         do s3 <- forEach (Component.dispose (call P fuel)) disps s2;
         do s4 <- Component.onunload P (call P fuel) c (upd c (set_disposables []) s3);
         Ret (upd c (set_loaded false) s4)).
Proof.
  intros Hl Hch Hti Hdi IH Hc Hnd Hsh Hh.
  destruct (unload_kids P fuel c (length (_children_retired (get c s))) kids IH [] s)
    as (s1 & Hrun & T1); try done.
  assert (get c s1 = get c s) as Hc1.
  { apply (torn_rest _ _ _ _ T1). by intros ?%live_forest_nodes. }
  exists s1. split; [done|]. split; [done|].
  unfold Component.unload. rewrite Hl. cbn [negb].
  rewrite Hch, length_map. cbn [length] in Hrun. rewrite Hrun. cbn [bind].
  rewrite get_upd_eq, Hc1. cbn [fresh_children _intervals]. rewrite Hti.
  rewrite forEach_cancel. cbn [bind].
  rewrite get_upd_eq, get_records, get_upd_eq, Hc1.
  cbn [set_intervals fresh_children _disposables]. by rewrite Hdi.
Qed.

Lemma height_kids k c b kids timers disps fuel :
  k ∈ kids → height (Node c b kids timers disps) < S fuel → height k < fuel.
Proof.
  intros Hk. cbn [height]. intros Hlt.
  assert (height k ≤ max_list (map height kids)); [|lia].
  apply max_list_elem_of_le. apply list_elem_of_In, in_map, list_elem_of_In, Hk.
Qed.

(** ** The teardown of a quiet tree *)

Lemma unload_tree P t : unloads P t.
Proof.
  induction t as [c b kids timers disps IH] using tree_induction.
  intros s fuel Hsh Hnd Hh.
  destruct fuel as [|fuel]; [lia|]. cbn [root call dispatch].
  inversion Hsh as [? ? ? ? ? Hl Hch Hti Hdi Hq Hqh Hkids]; subst.
  destruct (_loaded (get c s)) eqn:Hb.
  2:{ exists s. unfold Component.unload. rewrite Hb. split; [done|].
      cbn [trace]. split; try done.
      - by rewrite app_nil_r.
      - cbn. by intros x ?%elem_of_nil. }
  cbn [nodes] in Hnd. apply NoDup_cons in Hnd as [Hc Hnd].
  destruct (unload_through_timers P fuel c kids (_intervals (get c s))
              (_disposables (get c s)) s) as (s1 & T1 & Hc1 & ->); try done.
  { rewrite Forall_forall. intros k Hk. eapply height_kids; eauto. }
  destruct fuel as [|fuel].
  { cbn [height] in Hh. lia. }
  cbn zeta. rewrite forEach_dispose_quiet by done. cbn [bind].
  unfold Component.onunload. rewrite run_quiet by done. cbn [bind].
  eexists. split; [reflexivity|].
  destruct T1 as [L1 P1 D1 V1 R1].
  split.
  - autorewrite with store. rewrite L1, P1. cbn [trace].
    rewrite <- !app_assoc. done.
  - by autorewrite with store.
  - by autorewrite with store.
  - intros x. cbn [mbind list_bind live]. rewrite app_nil_r, elem_of_cons.
    intros [->|Hx].
    + autorewrite with store. done.
    + assert (c ≠ x) by (intros ->; by apply Hc, live_forest_nodes).
      rewrite get_upd_ne, get_records, get_record, get_upd_ne, get_records, get_upd_ne,
        get_records, get_upd_ne by done.
      by apply V1.
  - intros x. cbn [mbind list_bind live]. rewrite app_nil_r, not_elem_of_cons.
    intros [Hxc Hx].
    rewrite get_upd_ne, get_records, get_record, get_upd_ne, get_records, get_upd_ne,
      get_records, get_upd_ne by done.
    by apply R1.
Qed.

Lemma load_loaded P call c s :
  _loaded (get c s) = true → Component.load P call c s = Ret s.
Proof. intros H. unfold Component.load. by rewrite H. Qed.

Lemma unload_unloaded P call c s :
  _loaded (get c s) = false → Component.unload P call c s = Ret s.
Proof. intros H. unfold Component.unload. by rewrite H. Qed.

Lemma bind_Ret o k s' : bind o k = Ret s' → ∃ s1, o = Ret s1 ∧ k s1 = Ret s'.
Proof. destruct o; cbn; intros H; try discriminate. eauto. Qed.

(** Whenever [unload] returns, the node is not loaded. *)
Lemma unload_ends_unloaded P call c s s' :
  Component.unload P call c s = Ret s' → _loaded (get c s') = false.
Proof.
  unfold Component.unload. destruct (_loaded (get c s)) eqn:Hl; cbn [negb].
  - intros (s1 & _ & H)%bind_Ret. cbn zeta in H.
    apply bind_Ret in H as (s2 & _ & H).
    apply bind_Ret in H as (s3 & _ & H).
    apply bind_Ret in H as (s4 & _ & H).
    injection H as <-. by rewrite get_upd_eq.
  - by intros [= <-].
Qed.

Lemma times_fixed n m s : m s = Ret s → times n m s = Ret s.
Proof. intros H. induction n as [|n IH]; [done|]. cbn [times]. by rewrite H. Qed.

Lemma run_reentrant P fuel c sc s :
  forallb (reentrant c) sc = true →
  _loaded (get c s) = true →
  Component.run (call P (S fuel)) sc s = Ret (records (effects (plugs s) sc) s).
Proof.
  revert s. induction sc as [|a sc IH]; intros s Hq Hl.
  - by rewrite records_nil.
  - apply andb_prop in Hq as [Ha Hq].
    cbn [Component.run].
    assert (call P (S fuel) a s = Ret (records (effect (plugs s) a) s)) as ->.
    { destruct a; try discriminate Ha; cbn [call dispatch effect]; try done.
      - apply bool_decide_eq_true in Ha as ->.
        by rewrite load_loaded, records_nil.
      - by rewrite onunload_records. }
    cbn [bind]. rewrite IH by done. by rewrite records_app.
Qed.

Lemma onload_count_app c l1 l2 :
  onload_count c (l1 ++ l2) = onload_count c l1 + onload_count c l2.
Proof. unfold onload_count. by rewrite filter_app, length_app. Qed.

Lemma family_shape : shape Family.prog Family.s Family.t.
Proof. repeat (constructor; try reflexivity). Qed.

Lemma family_NoDup : NoDup (nodes Family.t).
Proof. apply (bool_decide_unpack _). vm_compute. reflexivity. Qed.

(** ** More about the children's loop *)

Lemma bind_assoc o k1 k2 : bind (bind o k1) k2 = bind o (fun s => bind (k1 s) k2).
Proof. by destruct o. Qed.

(** The first [n] indices, then the other [m]. *)
Lemma forEach_live_split {A} (read : state → list A) f n m : ∀ k s,
  forEach_live read f (n + m) k s
  = do s1 <- forEach_live read f n k s; forEach_live read f m (k + n) s1.
Proof.
  induction n as [|n IH]; intros k s.
  - cbn. by rewrite Nat.add_0_r.
  - cbn [Nat.add forEach_live]. destruct (read s !! k) as [x|].
    + rewrite bind_assoc. destruct (f x s) as [s1| |]; cbn [bind]; try done.
      rewrite IH. by replace (S k + n) with (k + S n) by lia.
    + rewrite IH. by replace (S k + n) with (k + S n) by lia.
Qed.

(** Indices whose element, if any, is a node that is not loaded. *)
Lemma forEach_live_idle P fuel (read : state → list cid) s m : ∀ k,
  (∀ i x, read s !! i = Some x → k ≤ i < k + m → _loaded (get x s) = false) →
  forEach_live read (fun child => call P (S fuel) (CallUnload child)) m k s = Ret s.
Proof.
  induction m as [|m IH]; intros k H; [done|].
  cbn [forEach_live]. destruct (read s !! k) as [x|] eqn:E.
  - cbn [call dispatch]. rewrite unload_unloaded by (eapply H; [exact E|lia]).
    cbn [bind]. apply IH. intros i y Hy Hi. eapply H; [exact Hy|lia].
  - apply IH. intros i y Hy Hi. eapply H; [exact Hy|lia].
Qed.

(** The loop over a run of quiet trees that sits at the indices from [n]
    on, whatever else the array holds. *)
Lemma unload_kids_at P fuel c g kids :
  Forall (unloads P) kids →
  ∀ n s,
    (∀ i k, kids !! i = Some k → _children (get c s) !! (n + i) = Some (root k)) →
    length (_children_retired (get c s)) = g →
    c ∉ kids ≫= nodes →
    NoDup (kids ≫= nodes) →
    Forall (shape P s) kids →
    Forall (fun k => height k < fuel) kids →
    ∃ s', forEach_live (children_array c g) (fun child => call P fuel (CallUnload child))
            (length kids) n s = Ret s'
          ∧ torn kids (kids ≫= trace P (plugs s)) s s'.
Proof.
  induction 1 as [|k kids Hk _ IH]; intros n s Hch Hg Hc Hnd Hsh Hh.
  - exists s. split; [done|apply torn_nil].
  - cbn [length forEach_live].
    assert (children_array c g s !! n = Some (root k)) as ->.
    { unfold children_array. rewrite decide_True by done.
      rewrite <- (Nat.add_0_r n). by apply Hch. }
    cbn in Hc, Hnd. apply NoDup_app in Hnd as (Hndk & Hdis & Hndr).
    apply not_elem_of_app in Hc as [Hck Hcr].
    inversion Hsh as [|? ? Hshk Hshr]; subst.
    inversion Hh as [|? ? Hhk Hhr]; subst.
    destruct (Hk s fuel Hshk Hndk Hhk) as (s1 & -> & T1). cbn [bind].
    assert (∀ x, x ∉ live k → get x s1 = get x s) as Hfr.
    { intros x Hx. apply (torn_rest _ _ _ _ T1). cbn. by rewrite app_nil_r. }
    destruct (IH (S n) s1) as (s2 & Heq & T2).
    + intros i k' Hi. rewrite Hfr by (intros ?%live_nodes; done).
      replace (S n + i) with (n + S i) by lia. by apply Hch.
    + by rewrite Hfr by (intros ?%live_nodes; done).
    + done.
    + done.
    + rewrite Forall_forall in Hshr. rewrite Forall_forall. intros k' Hk'.
      eapply shape_frame; [|by apply Hshr].
      intros x Hx. apply Hfr. intros Hl%live_nodes.
      apply (Hdis x Hl). apply list_elem_of_bind. eauto.
    + done.
    + exists s2. split; [done|].
      cbn [mbind list_bind]. rewrite <- (torn_plugs _ _ _ _ T1) at 2.
      eapply torn_cons; [|done|done].
      intros x Hl Hr. apply (Hdis x); [by apply live_nodes|by apply live_forest_nodes].
Qed.

(** What [unload] does once the loop over the children has returned. *)
Lemma unload_after_children P callf c s s1 :
  _loaded (get c s) = true →
  forEach_live (children_array c (length (_children_retired (get c s))))
    (fun child => callf (CallUnload child)) (length (_children (get c s))) 0 s = Ret s1 →
  Component.unload P callf c s =
    (let s2 := upd c (set_intervals [])
                 (records (cancel_trace (_intervals (get c s1))) (upd c fresh_children s1)) in
     do s3 <- forEach (Component.dispose callf) (_disposables (get c s1)) s2;
     do s4 <- Component.onunload P callf c (upd c (set_disposables []) s3);
     Ret (upd c (set_loaded false) s4)).
Proof.
  intros Hl Hrun. unfold Component.unload. rewrite Hl. cbn [negb].
  rewrite Hrun. cbn [bind].
  rewrite get_upd_eq. cbn [fresh_children _intervals].
  rewrite forEach_cancel. cbn [bind].
  rewrite get_upd_eq, get_records, get_upd_eq.
  by cbn [set_intervals fresh_children _disposables].
Qed.

(** The same with quiet disposables and a quiet teardown hook. *)
Lemma unload_quiet_node P fuel c s s1 :
  _loaded (get c s) = true →
  forEach_live (children_array c (length (_children_retired (get c s))))
    (fun child => call P (S fuel) (CallUnload child))
    (length (_children (get c s))) 0 s = Ret s1 →
  Forall (fun cb => quiet cb = true) (_disposables (get c s1)) →
  quiet (onunload_of P c) = true →
  ∃ s', Component.unload P (call P (S fuel)) c s = Ret s'
    ∧ log s' = log s1
        ++ cancel_trace (_intervals (get c s1))
        ++ (_disposables (get c s1) ≫= dispose_trace (plugs s1))
        ++ EvOnunload c :: effects (plugs s1) (onunload_of P c)
    ∧ plugs s' = plugs s1
    ∧ dom_next s' = dom_next s1
    ∧ pristine (get c s')
    ∧ ∀ y, y ≠ c → get y s' = get y s1.
Proof.
  intros Hl Hrun Hq Hqh.
  rewrite (unload_after_children P _ c s s1 Hl Hrun). cbn zeta.
  rewrite forEach_dispose_quiet by done. cbn [bind].
  unfold Component.onunload. rewrite run_quiet by done. cbn [bind].
  eexists. split; [reflexivity|].
  split; [autorewrite with store; by rewrite <- !app_assoc|].
  split; [by autorewrite with store|]. split; [by autorewrite with store|].
  split.
  - autorewrite with store. done.
  - intros y Hy.
    rewrite get_upd_ne, get_records, get_record, get_upd_ne, get_records, get_upd_ne,
      get_records, get_upd_ne by done.
    done.
Qed.

(** ** C4 *)

(** C4: [unload()] on a node whose loaded flag is false, be it freshly
    constructed or the result of an [unload()] that returned, is a no-op:
    it returns normally with the store and the recorded sequence unchanged
    (no child unloaded, no timer cancelled, no disposable invoked, no
    teardown hook), and so does any number of further calls. *)
Theorem C4_unload_noop_when_not_loaded P c s :
  _loaded (get c s) = false ∨ (∃ fuel0 s0, unload P fuel0 c s0 = Ret s) →
  (∀ call, Component.unload P call c s = Ret s)
  ∧ (∀ fuel n, times n (unload P fuel c) s = Ret s).
Proof.
  intros H.
  assert (_loaded (get c s) = false) as Hl.
  { destruct H as [H|(fuel0 & s0 & H)]; [done|].
    by apply unload_ends_unloaded in H. }
  split.
  - intros call0. by apply unload_unloaded.
  - intros fuel n. apply times_fixed. by apply unload_unloaded.
Qed.

Lemma C4_unload_noop_when_not_loaded_witness :
  _loaded (get 0 initial) = false
  ∧ times 3 (unload Family.prog 2 0) initial = Ret initial.
Proof.
  split; [reflexivity|].
  apply (C4_unload_noop_when_not_loaded Family.prog 0 initial). left. reflexivity.
Defined.

(** ** C2 *)

(** *** Code that loads and registers but never unloads *)

Lemma final_bind o k s' :
  final (bind o k) s' → final o s' ∨ ∃ s1, o = Ret s1 ∧ final (k s1) s'.
Proof. destruct o; cbn; eauto. Qed.

Lemma started_refl s : started s s.
Proof. split; [intros x Hx; by split|intros x; reflexivity|reflexivity]. Qed.

Lemma started_trans s1 s2 s3 : started s1 s2 → started s2 s3 → started s1 s3.
Proof.
  intros [L1 Q1 D1] [L2 Q2 D2]. split.
  - intros x Hx. destruct (L1 x Hx) as [Hl1 Hc1]. destruct (L2 x Hl1) as [Hl2 Hc2].
    split; [done|congruence].
  - intros x. etrans; [apply Q1|apply Q2].
  - congruence.
Qed.

Lemma disposals_app l1 l2 : disposals (l1 ++ l2) = disposals l1 + disposals l2.
Proof. unfold disposals. by rewrite filter_app, length_app. Qed.

Lemma outside_counts c es :
  Forall (fun e => outside e = true) es → onload_count c es = 0 ∧ disposals es = 0.
Proof.
  induction 1 as [|e es He _ [IH1 IH2]]; [done|].
  change (e :: es) with ([e] ++ es). rewrite onload_count_app, disposals_app, IH1, IH2.
  by destruct e.
Qed.

Lemma started_step s s' es :
  log s' = log s ++ es →
  Forall (fun e => outside e = true) es →
  (∀ y, (_loaded (get y s) = true → _loaded (get y s') = true)
        ∧ _disposables (get y s) `prefix_of` _disposables (get y s')) →
  started s s'.
Proof.
  intros Hlog Hes Hget. destruct (outside_counts) with (es := es) (c := 0) as [_ Hd]; [done|].
  split.
  - intros x Hx. split; [by apply Hget|].
    rewrite Hlog, onload_count_app. destruct (outside_counts x es Hes) as [-> _]. lia.
  - apply Hget.
  - rewrite Hlog, disposals_app, Hd. lia.
Qed.

Lemma started_upd x f s s0 es :
  comps s0 = comps s → log s0 = log s ++ es → Forall (fun e => outside e = true) es →
  (∀ o, (_loaded o = true → _loaded (f o) = true)
        ∧ _disposables o `prefix_of` _disposables (f o)) →
  started s (upd x f s0).
Proof.
  intros Hc Hlog Hes Hf.
  assert (∀ y, get y s0 = get y s) as Hg by (intros y; unfold get; by rewrite Hc).
  apply (started_step _ _ es); [done|done|].
  intros y. destruct (decide (x = y)) as [<-|Hne].
  - rewrite get_upd_eq, Hg. apply Hf.
  - rewrite get_upd_ne, Hg by done. done.
Qed.

Lemma started_same s s' es :
  comps s' = comps s → log s' = log s ++ es → Forall (fun e => outside e = true) es →
  started s s'.
Proof.
  intros Hc Hlog Hes.
  assert (∀ y, get y s' = get y s) as Hg by (intros y; unfold get; by rewrite Hc).
  apply (started_step _ _ es); [done|done|]. intros y. by rewrite Hg.
Qed.

Lemma outside_cleanup o : Forall (fun e => outside e = true) (plugin_cleanup o).
Proof.
  unfold plugin_cleanup. apply Forall_app. split; by apply Forall_map, Forall_true.
Qed.

(** A call that is neither [load()], [unload()] nor a [throw] returns. *)
Lemma settled_step P callf a s :
  match a with Raise _ | CallLoad _ | CallUnload _ => False | _ => True end →
  ∃ s', dispatch P callf a s = Ret s' ∧ started s s'.
Proof.
  destruct a; intros Ha; try done; cbn [dispatch]; eexists; (split; [reflexivity|]).
  - by apply (started_same _ _ [EvNote tag]); [| |repeat constructor].
  - by apply (started_same _ _ [EvHost h]); [| |repeat constructor].
  - apply (started_upd _ _ s _ []); [done|by rewrite app_nil_r|done|].
    intros o. split; [done|]. by apply prefix_app_r.
  - apply (started_upd _ _ s _ []); [done|by rewrite app_nil_r|done|]. by intros o.
  - apply (started_upd _ _ s _ []); [done|by rewrite app_nil_r|done|]. by intros o.
  - unfold Component.removeChild. destruct (indexOf _ _); cbn [snd].
    + apply (started_upd _ _ s _ []); [done|by rewrite app_nil_r|done|]. by intros o.
    + apply started_refl.
  - rewrite onunload_records. eapply started_same; [done|reflexivity|apply outside_cleanup].
  - by apply (started_same _ _ [EvHost (commands_register cmd)]); [| |repeat constructor].
  - by apply (started_same _ _ []); [|rewrite app_nil_r|].
  - unfold Plugin.registerView, Component.register.
    apply (started_upd _ _ s _ [EvHost (workspace_registerView type)]);
      [done|done|by repeat constructor|].
    intros o. split; [done|]. by apply prefix_app_r.
  - unfold Plugin.registerExtensions, Component.register.
    apply (started_upd _ _ s _ [EvHost (workspace_registerExtensions extensions viewType)]);
      [done|done|by repeat constructor|].
    intros o. split; [done|]. by apply prefix_app_r.
  - unfold Plugin.loadCss, Component.register. eapply (started_upd _ _ s _ [_]); [done|done|by repeat constructor|].
    intros o. split; [done|]. by apply prefix_app_r.
  - unfold Plugin.addSettingTab, Component.register.
    eapply (started_upd _ _ s _ [_]); [done|done|by repeat constructor|].
    intros o. split; [done|]. by apply prefix_app_r.
Qed.

Section Started.
Variable P : program.
Hypothesis hooks : never_unloads P.
Variable callf : action → state → outcome.
Hypothesis callf_started : ∀ a s s',
  is_unload a = false → final (callf a s) s' → started s s'.

Lemma run_started sc : ∀ s s',
  forallb (fun a => negb (is_unload a)) sc = true →
  final (Component.run callf sc s) s' → started s s'.
Proof.
  induction sc as [|a sc IH]; intros s s' Hsc Hf.
  - cbn in Hf. subst. apply started_refl.
  - apply andb_prop in Hsc as [Ha Hsc]. apply negb_true_iff in Ha.
    cbn [Component.run] in Hf. apply final_bind in Hf as [Hf|(s1 & H1 & Hf)].
    + by apply (callf_started a).
    + eapply started_trans; [|by apply IH].
      apply (callf_started a); [done|]. by rewrite H1.
Qed.

Lemma load_enters x s :
  _loaded (get x s) = false →
  started s (record (EvOnload x) (upd x (set_loaded true) s)).
Proof.
  intros Hl. split.
  - intros y Hy. assert (x ≠ y) as Hne by (intros ->; congruence).
    rewrite get_record, get_upd_ne by done. split; [done|].
    rewrite log_record, log_upd, onload_count_app.
    unfold onload_count at 2. cbn.
    rewrite (bool_decide_eq_false_2 (x = y)) by exact Hne.
    rewrite decide_False by done. cbn. lia.
  - intros y. rewrite get_record. destruct (decide (x = y)) as [<-|Hne].
    + by rewrite get_upd_eq.
    + by rewrite get_upd_ne.
  - rewrite log_record, log_upd, disposals_app. unfold disposals at 2. cbn.
    rewrite decide_False by done. cbn. lia.
Qed.

Lemma load_started x s s' : final (Component.load P callf x s) s' → started s s'.
Proof.
  unfold Component.load. destruct (_loaded (get x s)) eqn:Hl.
  - cbn. intros <-. apply started_refl.
  - intros Hf. eapply started_trans; [by apply load_enters|].
    eapply run_started; [apply hooks|exact Hf].
Qed.

Lemma dispatch_started a s s' :
  is_unload a = false → final (dispatch P callf a s) s' → started s s'.
Proof.
  intros Ha Hf.
  destruct a; try discriminate Ha;
    try (match type of Hf with
         | final (dispatch _ _ ?a _) _ =>
             destruct (settled_step P callf a s I) as (s1 & Hs1 & St)
         end;
         rewrite Hs1 in Hf; cbn in Hf; by subst).
  - cbn in Hf. subst. apply started_refl.
  - by apply load_started in Hf.
Qed.
End Started.

Lemma call_started P fuel :
  never_unloads P →
  ∀ a s s', is_unload a = false → final (call P fuel a s) s' → started s s'.
Proof.
  intros Hhooks. induction fuel as [|fuel IH]; intros a s s' Ha Hf; [done|].
  cbn [call] in Hf. by eapply dispatch_started.
Qed.

Lemma returns_within_S P n : ∀ loading a,
  returns_within P n loading a = true → returns_within P (S n) loading a = true.
Proof.
  induction n as [|n IH]; intros loading a; [done|].
  intros H. cbn [returns_within] in H. change (returns_within P (S (S n)) loading a)
    with (match a with
          | Raise _ | CallUnload _ => false
          | CallLoad x =>
              bool_decide (x ∈ loading)
              || forallb (returns_within P (S n) (x :: loading)) (onload_of P x)
          | _ => true
          end).
  destruct a; try done.
  apply orb_true_iff in H as [H|H]; apply orb_true_iff; [by left|right].
  rewrite forallb_forall in H. rewrite forallb_forall. intros a Ha. by apply IH, H.
Qed.

Lemma returns_within_le P n m loading sc :
  n ≤ m →
  forallb (returns_within P n loading) sc = true →
  forallb (returns_within P m loading) sc = true.
Proof.
  induction 1 as [|m _ IH]; [done|]. intros H. specialize (IH H).
  rewrite forallb_forall in IH. rewrite forallb_forall. intros a Ha.
  by apply returns_within_S, IH.
Qed.

Lemma run_returns P n : ∀ loading sc s,
  forallb (returns_within P n loading) sc = true →
  (∀ x, x ∈ loading → _loaded (get x s) = true) →
  ∃ s', Component.run (call P n) sc s = Ret s' ∧ started s s'.
Proof.
  induction n as [|n IHn]; intros loading sc.
  { destruct sc as [|a sc]; [|done]. intros s _ _. exists s. split; [done|apply started_refl]. }
  induction sc as [|a sc IH]; intros s Hsc Hl.
  - exists s. split; [done|apply started_refl].
  - apply andb_prop in Hsc as [Ha Hsc]. cbn [Component.run].
    assert (∃ s1, call P (S n) a s = Ret s1 ∧ started s s1) as (s1 & -> & St).
    { cbn [returns_within] in Ha.
      destruct a; try discriminate Ha; try (by apply settled_step).
      cbn [call dispatch]. unfold Component.load.
      destruct (_loaded (get c s)) eqn:Hc; [exists s; split; [done|apply started_refl]|].
      apply orb_true_iff in Ha as [Ha|Ha].
      { apply bool_decide_eq_true in Ha. apply Hl in Ha. congruence. }
      unfold Component.onload.
      destruct (IHn (c :: loading) (onload_of P c)
                  (record (EvOnload c) (upd c (set_loaded true) s)) Ha) as (s1 & Hrun & St).
      { intros x [->|Hx]%elem_of_cons; rewrite get_record.
        - by rewrite get_upd_eq.
        - destruct (decide (c = x)) as [<-|Hne]; [by rewrite get_upd_eq|].
          rewrite get_upd_ne by done. by apply Hl. }
      exists s1. split; [done|]. eapply started_trans; [by apply load_enters|done]. }
    cbn [bind]. destruct (IH s1 Hsc) as (s2 & Hrun & St2).
    { intros x Hx. by apply (started_loaded _ _ St), Hl. }
    exists s2. split; [done|by eapply started_trans].
Qed.

(** Once the hook of [c] has been entered by [load()], code that never
    unloads leaves [c] loaded and does not enter the hook again. *)
Lemma entered_once c s s1 :
  started (record (EvOnload c) (upd c (set_loaded true) s)) s1 →
  onload_count c (log s1) = S (onload_count c (log s))
  ∧ _loaded (get c s1) = true
  ∧ ∀ P n fuel, times n (load P fuel c) s1 = Ret s1.
Proof.
  intros St. destruct (started_loaded _ _ St c) as [Hl Hc].
  { by rewrite get_record, get_upd_eq. }
  split; [|split; [done|]].
  - rewrite Hc, log_record, log_upd, onload_count_app.
    unfold onload_count at 2. cbn. rewrite bool_decide_eq_true_2 by done.
    rewrite decide_True by done. cbn. lia.
  - intros P n fuel. apply times_fixed. by apply load_loaded.
Qed.

(** A hook that unloads its node leaves it unloaded: every [load()] runs
    the hook again. *)
Lemma C2_counterexample :
  (∃ s1, load Restless.prog 1 0 initial = Ret s1
     ∧ log s1 = [EvOnload 0; EvOnunload 0]
     ∧ _loaded (get 0 s1) = false)
  ∧ (∃ s3, times 3 (load Restless.prog 1 0) initial = Ret s3
       ∧ onload_count 0 (log s3) = 3).
Proof.
  split.
  - eexists. split; [vm_compute; reflexivity|]. split; reflexivity.
  - eexists. split; [vm_compute; reflexivity|]. reflexivity.
Qed.

(** C2, amended: [load()] on a loaded node returns with nothing changed.
    On an unloaded node it sets the loaded flag and then enters the
    initialization hook.  When no initialization hook of the program calls
    [unload()], a [load()] that returns or throws has entered the hook of
    the node exactly once, whatever the hook did (calls to [load()] on the
    node, from the hook itself or from the hooks of nodes that it loads, are
    no-ops), and leaves the node loaded, so that any number of further
    [load()] calls change nothing.  And [load()] returns when the calls
    nest to a bounded depth and neither the hook nor the hooks of the nodes
    that it loads throw or call [unload()]. *)
Theorem C2_load_runs_hook_once P c :
  (∀ callf s, _loaded (get c s) = true → Component.load P callf c s = Ret s)
  ∧ (∀ callf s, _loaded (get c s) = false →
       Component.load P callf c s = Component.onload P callf c (upd c (set_loaded true) s)
       ∧ _loaded (get c (upd c (set_loaded true) s)) = true)
  ∧ (never_unloads P →
     ∀ fuel s s1,
       _loaded (get c s) = false →
       final (load P fuel c s) s1 →
       onload_count c (log s1) = S (onload_count c (log s))
       ∧ _loaded (get c s1) = true
       ∧ ∀ n fuel', times n (load P fuel' c) s1 = Ret s1)
  ∧ (∀ n fuel s,
       _loaded (get c s) = false →
       forallb (returns_within P n [c]) (onload_of P c) = true →
       n ≤ fuel →
       ∃ s1, load P fuel c s = Ret s1
         ∧ onload_count c (log s1) = S (onload_count c (log s))
         ∧ _loaded (get c s1) = true
         ∧ ∀ k fuel', times k (load P fuel' c) s1 = Ret s1).
Proof.
  split; [intros callf s Hl; by apply load_loaded|].
  split.
  { intros callf s Hl. unfold Component.load. rewrite Hl. by rewrite get_upd_eq. }
  split.
  - intros Hhooks fuel s s1 Hl Hf.
    change (load P fuel c s) with (Component.load P (call P fuel) c s) in Hf.
    unfold Component.load in Hf. rewrite Hl in Hf. unfold Component.onload in Hf.
    apply (run_started (call P fuel) (call_started P fuel Hhooks)) in Hf; [|apply Hhooks].
    destruct (entered_once c s s1 Hf) as (Hc & Hl1 & Ht).
    split; [done|]. split; [done|]. intros n fuel'. apply Ht.
  - intros n fuel s Hl Hp Hn.
    change (load P fuel c s) with (Component.load P (call P fuel) c s).
    unfold Component.load. rewrite Hl. unfold Component.onload.
    destruct (run_returns P fuel [c] (onload_of P c)
                (record (EvOnload c) (upd c (set_loaded true) s))) as (s1 & Hrun & St).
    { by eapply returns_within_le. }
    { intros x ->%list_elem_of_singleton. by rewrite get_record, get_upd_eq. }
    exists s1. split; [done|].
    destruct (entered_once c s s1 St) as (Hc & Hl1 & Ht).
    split; [done|]. split; [done|]. intros k fuel'. apply Ht.
Qed.

Lemma C2_load_runs_hook_once_witness :
  (∃ s1, load Scenario.prog 2 0 initial = Ret s1
     ∧ onload_count 0 (log s1) = 1
     ∧ times 4 (load Scenario.prog 2 0) s1 = Ret s1)
  ∧ (∃ s1, final (load Fragile.prog 1 0 initial) s1
       ∧ onload_count 0 (log s1) = 1
       ∧ times 4 (load Fragile.prog 1 0) s1 = Ret s1)
  ∧ (∃ s1, load Family.eager 1 0 initial = Ret s1
       ∧ onload_count 0 (log s1) = 1
       ∧ times 4 (load Family.eager 1 0) s1 = Ret s1).
Proof.
  destruct (C2_load_runs_hook_once Scenario.prog 0) as (_ & _ & _ & Hscenario).
  destruct (C2_load_runs_hook_once Fragile.prog 0) as (_ & _ & Hfragile & _).
  destruct (C2_load_runs_hook_once Family.eager 0) as (_ & _ & _ & Heager).
  split; [|split].
  - destruct (Hscenario 2 2 initial) as (s1 & Hrun & Hc & _ & Ht);
      [reflexivity|reflexivity|lia|].
    exists s1. split; [exact Hrun|]. split; [exact Hc|apply Ht].
  - eexists. split; [vm_compute; reflexivity|].
    edestruct Hfragile with (fuel := 1) (s := initial) as (Hc & _ & Ht).
    + intros x. reflexivity.
    + reflexivity.
    + vm_compute. reflexivity.
    + split; [exact Hc|apply Ht].
  - destruct (Heager 1 1 initial) as (s1 & Hrun & Hc & _ & Ht);
      [reflexivity|reflexivity|lia|].
    exists s1. split; [exact Hrun|]. split; [exact Hc|apply Ht].
Defined.

(** ** C1 *)

Lemma forEach_app {A} (f : A → state → outcome) l1 l2 s :
  forEach f (l1 ++ l2) s = do s1 <- forEach f l1 s; forEach f l2 s1.
Proof.
  revert s. induction l1 as [|x l1 IH]; intros s; [done|].
  cbn [app forEach]. rewrite bind_assoc. destruct (f x s); cbn [bind]; try done.
Qed.

Lemma forEach_live_steady callf c s0 :
  steady callf c s0 →
  ∀ rest seen s,
    _children (get c s0) = seen ++ rest →
    forEach (fun child => callf (CallUnload child)) seen s0 = Ret s →
    forEach_live (children_array c (length (_children_retired (get c s0))))
      (fun child => callf (CallUnload child)) (length rest) (length seen) s
    = forEach (fun child => callf (CallUnload child)) rest s.
Proof.
  intros Hst. induction rest as [|x rest IH]; intros seen s Hl Hrun; [done|].
  cbn [length forEach_live forEach].
  rewrite (Hst (length seen) s).
  2:{ rewrite Hl, length_app. cbn. lia. }
  2:{ by rewrite Hl, take_app_length. }
  rewrite Hl, list_lookup_middle by done.
  destruct (callf (CallUnload x) s) as [s1| |] eqn:E; cbn [bind]; try done.
  replace (S (length seen)) with (length (seen ++ [x])) by (rewrite length_app; cbn; lia).
  apply IH.
  - by rewrite <- app_assoc.
  - rewrite forEach_app, Hrun. cbn [bind forEach]. by rewrite E.
Qed.

Lemma unload_phases P callf c s :
  _loaded (get c s) = true → steady callf c s →
  Component.unload P callf c s = Phases.unload P callf c s.
Proof.
  intros Hl Hst. unfold Component.unload, Phases.unload. rewrite Hl. cbn [negb].
  pose proof (forEach_live_steady callf c s Hst (_children (get c s)) [] s eq_refl eq_refl)
    as Hloop.
  cbn [length] in Hloop. rewrite Hloop.
  unfold Phases.children. rewrite bind_assoc.
  destruct (forEach _ (_children (get c s)) s) as [s1| |]; cbn [bind]; try done.
  unfold Phases.timers. rewrite bind_assoc.
  destruct (forEach _ (_intervals _) _) as [s2| |]; cbn [bind]; try done.
  unfold Phases.disposables. rewrite bind_assoc.
  destruct (forEach _ (_disposables _) _) as [s3| |]; cbn [bind]; try done.
Qed.

Lemma cascade_kids P fuel kids :
  Forall (unloads P) kids →
  ∀ s,
    NoDup (kids ≫= nodes) →
    Forall (shape P s) kids →
    Forall (fun k => height k < fuel) kids →
    ∃ s', forEach (fun child => call P fuel (CallUnload child)) (map root kids) s = Ret s'
          ∧ torn kids (kids ≫= trace P (plugs s)) s s'.
Proof.
  induction 1 as [|k kids Hk _ IH]; intros s Hnd Hsh Hh.
  - exists s. split; [done|apply torn_nil].
  - cbn [map forEach].
    cbn in Hnd. apply NoDup_app in Hnd as (Hndk & Hdis & Hndr).
    inversion Hsh as [|? ? Hshk Hshr]; subst.
    inversion Hh as [|? ? Hhk Hhr]; subst.
    destruct (Hk s fuel Hshk Hndk Hhk) as (s1 & -> & T1). cbn [bind].
    assert (∀ x, x ∉ live k → get x s1 = get x s) as Hfr.
    { intros x Hx. apply (torn_rest _ _ _ _ T1). cbn. by rewrite app_nil_r. }
    destruct (IH s1) as (s2 & Heq & T2).
    + done.
    + rewrite Forall_forall in Hshr. rewrite Forall_forall. intros k' Hk'.
      eapply shape_frame; [|by apply Hshr].
      intros x Hx. apply Hfr. intros Hl%live_nodes.
      apply (Hdis x Hl). apply list_elem_of_bind. eauto.
    + done.
    + exists s2. split; [done|].
      cbn [mbind list_bind]. rewrite <- (torn_plugs _ _ _ _ T1) at 2.
      eapply torn_cons; [|done|done].
      intros x Hl Hr. apply (Hdis x); [by apply live_nodes|by apply live_forest_nodes].
Qed.

Lemma steady_quiet P fuel c kids timers disps s :
  shape P s (Node c true kids timers disps) →
  NoDup (nodes (Node c true kids timers disps)) →
  height (Node c true kids timers disps) ≤ fuel →
  steady (call P fuel) c s.
Proof.
  intros Hsh Hnd Hh n s' _.
  inversion Hsh as [? ? ? ? ? Hl Hch Hti Hdi Hq Hqh Hkids]; subst.
  cbn [nodes] in Hnd. apply NoDup_cons in Hnd as [Hc Hnd].
  rewrite Hch, firstn_map.
  rewrite <- (take_drop n kids) in Hnd, Hc. rewrite bind_app in Hnd, Hc.
  apply NoDup_app in Hnd as (Hnd & _ & _). apply not_elem_of_app in Hc as [Hc _].
  destruct (cascade_kids P fuel (take n kids)) with (s := s) as (s1 & -> & T1).
  - rewrite Forall_forall. intros k _. apply unload_tree.
  - done.
  - by apply Forall_take.
  - apply Forall_take. rewrite Forall_forall. intros k Hk.
    apply (height_kids k c true kids (_intervals (get c s)) (_disposables (get c s))); [done|lia].
  - intros [= <-]. unfold children_array.
    rewrite (torn_rest _ _ _ _ T1) by (by intros ?%live_forest_nodes).
    by rewrite decide_True, Hch.
Qed.




(** ** C5 *)

Lemma indexOf_absent x l : x ∉ l → indexOf x l = None.
Proof.
  induction l as [|y l IH]; [done|]. rewrite not_elem_of_cons. intros [Hxy Hx].
  cbn [indexOf]. rewrite decide_False by done. by rewrite IH.
Qed.

Lemma indexOf_first x l1 l2 : x ∉ l1 → indexOf x (l1 ++ x :: l2) = Some (length l1).
Proof.
  induction l1 as [|y l1 IH]; cbn [indexOf app length].
  - intros _. by rewrite decide_True.
  - rewrite not_elem_of_cons. intros [Hxy Hx].
    rewrite decide_False by done. by rewrite IH.
Qed.

Lemma set_children_same o : set_children (_children o) o = o.
Proof. by destruct o. Qed.

Lemma removeChild_absent c x s :
  x ∉ _children (get c s) → Component.removeChild c x s = (x, s).
Proof. intros H. unfold Component.removeChild. by rewrite indexOf_absent. Qed.

Lemma removeChild_first c x s l1 l2 :
  _children (get c s) = l1 ++ x :: l2 → x ∉ l1 →
  Component.removeChild c x s = (x, upd c (set_children (l1 ++ l2)) s).
Proof.
  intros Hch Hx. unfold Component.removeChild. rewrite Hch, indexOf_first by done.
  f_equal. unfold upd. f_equal. f_equal. rewrite Hch. by rewrite delete_middle.
Qed.

(** With 1 already a child of 0, [addChild(1)] followed by [removeChild(1)]
    takes out the older entry: 1 is still among the children. *)
Lemma C5_counterexample :
  let s0 := (Component.addChild 0 1 initial).2 in
  let s1 := (Component.addChild 0 1 s0).2 in
  let s2 := (Component.removeChild 0 1 s1).2 in
  _children (get 0 s0) = [1] ∧ _children (get 0 s2) = [1] ∧ 1 ∈ _children (get 0 s2).
Proof. vm_compute. split; [reflexivity|]. split; [reflexivity|]. apply list_elem_of_here. Qed.

(** C5, amended: when [x] is not yet a child of [n], [n.addChild(x)] followed
    by [n.removeChild(x)] returns [x] both times and leaves every component,
    [x] included, as it was: [x] is not among the children of [n] and has
    not been unloaded, and nothing was recorded.  In any store
    [removeChild(x)] returns [x]; when [x] is among the children it takes
    out the first entry identical to [x] and no other, and when [x] is not
    among them it changes nothing. *)
Theorem C5_addChild_removeChild_roundtrip c x :
  (∀ s, x ∉ _children (get c s) →
     let s1 := (Component.addChild c x s).2 in
     let s2 := (Component.removeChild c x s1).2 in
     (Component.addChild c x s).1 = x
     ∧ (Component.removeChild c x s1).1 = x
     ∧ _children (get c s1) = _children (get c s) ++ [x]
     ∧ (∀ y, get y s2 = get y s)
     ∧ (x ∉ _children (get c s2))
     ∧ log s2 = log s)
  ∧ (∀ s l1 l2,
       _children (get c s) = l1 ++ x :: l2 → x ∉ l1 →
       Component.removeChild c x s = (x, upd c (set_children (l1 ++ l2)) s))
  ∧ (∀ s, x ∉ _children (get c s) → Component.removeChild c x s = (x, s)).
Proof.
  split; [|split].
  - intros s Hx. cbn zeta. cbn [Component.addChild fst snd].
    set (s1 := upd c _ s).
    assert (_children (get c s1) = _children (get c s) ++ x :: []) as Hch.
    { unfold s1. by rewrite get_upd_eq. }
    rewrite (removeChild_first c x s1 _ [] Hch Hx). cbn [fst snd].
    rewrite app_nil_r.
    assert (∀ y, get y (upd c (set_children (_children (get c s))) s1) = get y s) as Hall.
    { intros y. destruct (decide (c = y)) as [<-|Hne].
      - rewrite get_upd_eq. unfold s1. rewrite get_upd_eq.
        by destruct (get c s).
      - rewrite get_upd_ne by done. unfold s1. by rewrite get_upd_ne. }
    split; [done|]. split; [done|]. split; [done|]. split; [done|].
    split; [by rewrite Hall|done].
  - intros s l1 l2. apply removeChild_first.
  - intros s. apply removeChild_absent.
Qed.

Lemma C5_addChild_removeChild_roundtrip_witness :
  (4 ∉ _children (get 0 Family.s))
  ∧ (Component.removeChild 0 4 (Component.addChild 0 4 Family.s).2).1 = 4
  ∧ (∀ y, get y (Component.removeChild 0 4 (Component.addChild 0 4 Family.s).2).2
          = get y Family.s)
  ∧ _children (get 0 (Component.removeChild 0 2 Family.s).2) = [1; 3]
  ∧ Component.removeChild 0 4 Family.s = (4, Family.s).
Proof.
  assert (4 ∉ _children (get 0 Family.s)) as H.
  { apply (bool_decide_unpack _). vm_compute. reflexivity. }
  split; [exact H|].
  destruct (C5_addChild_removeChild_roundtrip 0 4) as (Hround & _ & Habsent).
  destruct (C5_addChild_removeChild_roundtrip 0 2) as (_ & Hfirst & _).
  destruct (Hround Family.s H) as (_ & Hr & _ & Hall & _).
  split; [exact Hr|]. split; [exact Hall|]. split; [|exact (Habsent Family.s H)].
  rewrite (Hfirst Family.s [1] [3]); [reflexivity|reflexivity|].
  apply (bool_decide_unpack _). vm_compute. reflexivity.
Defined.

Lemma register_sugar p h h' s :
  undo_of h = Some h' → sugar p h s (Component.register p [Host h'] (record (EvHost h) s)).
Proof.
  intros Hu. exists h'. split; [done|]. unfold Component.register.
  split; [done|]. split; [by rewrite get_upd_eq|].
  split; [|done]. intros y Hy. by rewrite get_upd_ne.
Qed.

(** [addCommand] and [registerEvent] do not go through [register]: after
    them no disposable is queued; [registerEvent] does not call the host
    either. *)
Lemma C7_counterexample :
  let cmd := {| cmd_id := "my-command"; cmd_name := "My Command" |} in
  let ref := {| ev_event := "file-open"; ev_callback := 0 |} in
  _disposables (get 0 (Plugin.addCommand 0 cmd initial)) = []
  ∧ registeredCommands (getp 0 (Plugin.addCommand 0 cmd initial)) = ["my-command"]
  ∧ _disposables (get 0 (Plugin.registerEvent 0 ref initial)) = []
  ∧ log (Plugin.registerEvent 0 ref initial) = []
  ∧ ¬ (∃ h, sugar 0 h initial (Plugin.addCommand 0 cmd initial))
  ∧ ¬ (∃ h, sugar 0 h initial (Plugin.registerEvent 0 ref initial)).
Proof.
  cbn zeta. split; [reflexivity|]. split; [reflexivity|].
  split; [reflexivity|]. split; [reflexivity|].
  split; intros (h & h' & _ & _ & Hd & _); vm_compute in Hd; discriminate Hd.
Qed.

(** C7, amended: [registerView], [registerExtensions], [loadCss] and
    [addSettingTab] call the host at once and then [register] one callback
    that undoes exactly that call.  [addCommand] calls the host at once and
    appends the command id to [registeredCommands]; [registerEvent] only
    appends the reference to [registeredEvents]; neither queues a
    disposable.  These two lists are a second cleanup path: [Plugin.onunload],
    the teardown hook of a plugin that inherits it, unregisters every listed
    command and then detaches every listed event reference. *)
Theorem C7_registration_methods P p s :
  (∀ type, sugar p (workspace_registerView type) s (Plugin.registerView p type s))
  ∧ (∀ extensions viewType,
       sugar p (workspace_registerExtensions extensions viewType) s
         (Plugin.registerExtensions p extensions viewType s))
  ∧ (∀ css, ∃ s0, comps s0 = comps s ∧ plugs s0 = plugs s ∧ log s0 = log s
       ∧ sugar p (head_appendChild (dom_next s) ("plugin-css-" +:+ manifest_id P p) css) s0
           (Plugin.loadCss P p css s))
  ∧ (∀ tab, sugar p (plugins_registerSettingsTab (manifest_id P p) tab) s
              (Plugin.addSettingTab P p tab s))
  ∧ (∀ command,
       bookkeeping s (Plugin.addCommand p command s)
       ∧ log (Plugin.addCommand p command s) = log s ++ [EvHost (commands_register command)]
       ∧ registeredCommands (getp p (Plugin.addCommand p command s))
         = registeredCommands (getp p s) ++ [cmd_id command])
  ∧ (∀ ref,
       bookkeeping s (Plugin.registerEvent p ref s)
       ∧ log (Plugin.registerEvent p ref s) = log s
       ∧ registeredEvents (getp p (Plugin.registerEvent p ref s))
         = registeredEvents (getp p s) ++ [ref])
  ∧ bookkeeping s (Plugin.onunload p s)
  ∧ log (Plugin.onunload p s)
    = log s ++ map (fun id => EvHost (commands_unregister id)) (registeredCommands (getp p s))
            ++ map (fun ref => EvHost (events_off ref)) (registeredEvents (getp p s)).
Proof.
  split; [|split; [|split; [|split; [|split; [|split; [|split]]]]]].
  - intros type. by apply register_sugar.
  - intros extensions viewType. by apply register_sugar.
  - intros css. exists (mkState (comps s) (plugs s) (S (dom_next s)) (log s)).
    split; [done|]. split; [done|]. split; [done|].
    unfold Plugin.loadCss. by apply register_sugar.
  - intros tab. by apply register_sugar.
  - intros command. split; [done|]. split; [done|].
    unfold Plugin.addCommand. by rewrite getp_updp_eq.
  - intros ref. split; [done|]. split; [done|].
    unfold Plugin.registerEvent. by rewrite getp_updp_eq.
  - done.
  - rewrite onunload_records. done.
Qed.

(** ** C10 *)

(** One activation of a plugin that registers a command and an event
    reference in [onload] and inherits [Plugin.onunload]. *)
Lemma plugin_cycle P fuel p cmd ref s :
  onload_of P p = [CallAddCommand p cmd; CallRegisterEvent p ref] →
  onunload_of P p = [CallPluginOnunload p] →
  pristine (get p s) →
  ∃ s1 s2,
    load P (S fuel) p s = Ret s1
    ∧ unload P (S fuel) p s1 = Ret s2
    ∧ log s1 = log s ++ [EvOnload p; EvHost (commands_register cmd)]
    ∧ getp p s1 = getp p s2
    ∧ log s2 = log s1 ++ EvOnunload p :: plugin_cleanup (getp p s2)
    ∧ registeredCommands (getp p s2) = registeredCommands (getp p s) ++ [cmd_id cmd]
    ∧ registeredEvents (getp p s2) = registeredEvents (getp p s) ++ [ref]
    ∧ pristine (get p s2).
Proof.
  intros Hon Hoff (Hl & Hch & Hti & Hdi).
  set (s1 := Plugin.registerEvent p ref
               (Plugin.addCommand p cmd (record (EvOnload p) (upd p (set_loaded true) s)))).
  assert (load P (S fuel) p s = Ret s1) as Hload.
  { change (load P (S fuel) p s) with (Component.load P (call P (S fuel)) p s).
    unfold Component.load. rewrite Hl. unfold Component.onload. rewrite Hon. done. }
  assert (get p s1 = set_loaded true (get p s)) as Hg1.
  { unfold s1, Plugin.registerEvent, Plugin.addCommand. by autorewrite with store. }
  destruct (unload_tree P (Node p true [] [] []) s1 (S (S fuel))) as (s2 & Hun & T).
  { constructor; rewrite ?Hg1; cbn; try done. by rewrite Hoff. }
  { cbn. apply NoDup_singleton. }
  { cbn. lia. }
  exists s1, s2. split; [done|]. split; [exact Hun|].
  destruct T as [L2 P2 D2 V2 _].
  assert (getp p s2 = getp p s1) as Hp by (unfold getp; by rewrite P2).
  split; [|split; [done|split; [|split; [|split]]]].
  - unfold s1, Plugin.registerEvent, Plugin.addCommand. autorewrite with store.
    by rewrite <- app_assoc.
  - rewrite L2. cbn [trace mbind list_bind cancel_trace map app]. rewrite Hoff.
    unfold effects. cbn [mbind list_bind effect]. rewrite app_nil_r.
    rewrite Hp. done.
  - rewrite Hp. unfold s1, Plugin.registerEvent, Plugin.addCommand.
    rewrite getp_updp_eq. cbn [set_events registeredCommands].
    by rewrite getp_updp_eq.
  - rewrite Hp. unfold s1, Plugin.registerEvent, Plugin.addCommand.
    rewrite getp_updp_eq. cbn [set_events registeredEvents].
    by rewrite getp_updp_eq.
  - apply V2. cbn. apply list_elem_of_here.
Qed.

(** C10: [addCommand] and [registerEvent] append to [registeredCommands] and
    [registeredEvents]; [Plugin.onunload] walks both lists and leaves them as
    they are.  For a plugin that registers one command and one event
    reference in [onload], the second unload of load, unload, load, unload
    therefore unregisters the command twice and detaches the reference
    twice, after whatever the lists held before: the entries of the first
    activation are still there. *)
Theorem C10_plugin_bookkeeping_never_cleared P fuel p cmd ref s :
  onload_of P p = [CallAddCommand p cmd; CallRegisterEvent p ref] →
  onunload_of P p = [CallPluginOnunload p] →
  pristine (get p s) →
  getp p (Plugin.onunload p s) = getp p s
  ∧ ∃ s1 s2 s3 s4,
      load P (S fuel) p s = Ret s1
      ∧ unload P (S fuel) p s1 = Ret s2
      ∧ load P (S fuel) p s2 = Ret s3
      ∧ unload P (S fuel) p s3 = Ret s4
      ∧ log s2 = log s1 ++ EvOnunload p ::
          map (fun id => EvHost (commands_unregister id))
            (registeredCommands (getp p s) ++ [cmd_id cmd])
          ++ map (fun r => EvHost (events_off r)) (registeredEvents (getp p s) ++ [ref])
      ∧ log s4 = log s3 ++ EvOnunload p ::
          map (fun id => EvHost (commands_unregister id))
            (registeredCommands (getp p s) ++ [cmd_id cmd; cmd_id cmd])
          ++ map (fun r => EvHost (events_off r)) (registeredEvents (getp p s) ++ [ref; ref])
      ∧ registeredCommands (getp p s4) = registeredCommands (getp p s) ++ [cmd_id cmd; cmd_id cmd]
      ∧ registeredEvents (getp p s4) = registeredEvents (getp p s) ++ [ref; ref]
      ∧ pristine (get p s4).
Proof.
  intros Hon Hoff Hpr. split; [done|].
  destruct (plugin_cycle P fuel p cmd ref s Hon Hoff Hpr)
    as (s1 & s2 & Hl1 & Hu1 & _ & _ & L2 & C2 & E2 & Hpr2).
  destruct (plugin_cycle P fuel p cmd ref s2 Hon Hoff Hpr2)
    as (s3 & s4 & Hl3 & Hu3 & _ & _ & L4 & C4 & E4 & Hpr4).
  exists s1, s2, s3, s4.
  split; [done|]. split; [done|]. split; [done|]. split; [done|].
  split; [|split; [|split; [|split]]].
  - rewrite L2. unfold plugin_cleanup. by rewrite C2, E2.
  - rewrite L4. unfold plugin_cleanup. rewrite C4, E4, C2, E2.
    by rewrite <- !app_assoc.
  - rewrite C4, C2. by rewrite <- app_assoc.
  - rewrite E4, E2. by rewrite <- app_assoc.
  - done.
Qed.

Lemma C10_plugin_bookkeeping_never_cleared_witness :
  ∃ s1 s2 s3 s4,
    load Greeter.prog 1 0 initial = Ret s1
    ∧ unload Greeter.prog 1 0 s1 = Ret s2
    ∧ load Greeter.prog 1 0 s2 = Ret s3
    ∧ unload Greeter.prog 1 0 s3 = Ret s4
    ∧ log s4 = log s3 ++ [EvOnunload 0;
                           EvHost (commands_unregister "my-command");
                           EvHost (commands_unregister "my-command");
                           EvHost (events_off Greeter.ref);
                           EvHost (events_off Greeter.ref)].
Proof.
  destruct (C10_plugin_bookkeeping_never_cleared Greeter.prog 0 0 Greeter.cmd Greeter.ref initial)
    as (_ & s1 & s2 & s3 & s4 & H1 & H2 & H3 & H4 & _ & L4 & _).
  - reflexivity.
  - reflexivity.
  - repeat split; reflexivity.
  - exists s1, s2, s3, s4. repeat (split; [assumption|]). exact L4.
Defined.

(** ** C6 *)

Lemma shape_root_update P s s' c b b' kids timers timers' disps disps' :
  shape P s (Node c b kids timers disps) →
  c ∉ kids ≫= nodes →
  (∀ y, y ≠ c → get y s' = get y s) →
  _loaded (get c s') = b' →
  _children (get c s') = map root kids →
  _intervals (get c s') = timers' →
  _disposables (get c s') = disps' →
  Forall (fun cb => quiet cb = true) disps' →
  shape P s' (Node c b' kids timers' disps').
Proof.
  intros Hsh Hc Hfr Hl Hch Hti Hdi Hq.
  inversion Hsh as [? ? ? ? ? _ _ _ _ _ Hqh Hkids]; subst.
  constructor; try done.
  rewrite Forall_forall in Hkids. rewrite Forall_forall. intros k Hk.
  eapply shape_frame; [|by apply Hkids].
  intros x Hx. apply Hfr. intros ->. apply Hc. apply list_elem_of_bind. eauto.
Qed.




(** ** C9 *)

Lemma run_raise P fuel qs err rest s :
  quiet qs = true →
  Component.run (call P (S fuel)) (qs ++ Raise err :: rest) s
  = Exn err (records (effects (plugs s) qs) s).
Proof.
  revert s. induction qs as [|a qs IH]; intros s Hq.
  - cbn. by rewrite records_nil.
  - apply andb_prop in Hq as [Ha Hq].
    cbn [Component.run app].
    assert (call P (S fuel) a s = Ret (records (effect (plugs s) a) s)) as ->.
    { destruct a; try discriminate Ha; simpl; try done.
      by rewrite onunload_records. }
    cbn [bind]. rewrite IH by done. by rewrite records_app.
Qed.

Lemma forEach_dispose_raise P fuel pre qs err rest post s :
  Forall (fun cb => quiet cb = true) pre →
  quiet qs = true →
  forEach (Component.dispose (call P (S fuel))) (pre ++ (qs ++ Raise err :: rest) :: post) s
  = Exn err (records ((pre ≫= dispose_trace (plugs s))
                      ++ EvDispose (qs ++ Raise err :: rest) :: effects (plugs s) qs) s).
Proof.
  intros H Hq. revert s. induction H as [|cb l Hcb _ IH]; intros s.
  - cbn [app forEach mbind list_bind]. unfold Component.dispose.
    rewrite run_raise by done. cbn [bind].
    by rewrite record_records, records_app.
  - cbn [app forEach]. unfold Component.dispose at 1.
    rewrite run_quiet by done. cbn [bind].
    rewrite IH. autorewrite with store. rewrite record_records, !records_app.
    f_equal. cbn [mbind list_bind]. unfold dispose_trace at 3.
    by rewrite <- !app_assoc.
Qed.


Lemma may_add_late_strict L c a : may_add_late L c a = true → may_add L c a = true.
Proof.
  destruct a; cbn [may_add_late may_add]; try done.
  destruct (bool_decide (c0 = c)); [done|]. by intros ->.
Qed.

Lemma spares_at_weak late L c sc : spares L c sc = true → spares_at late L c sc = true.
Proof.
  destruct late; [|done]. unfold spares_at, spares, spares_late.
  rewrite !forallb_forall. intros H a Ha. specialize (H a Ha).
  apply negb_true_iff in H. apply negb_true_iff.
  destruct (may_add_late L c a) eqn:E; [|done]. apply may_add_late_strict in E. congruence.
Qed.

Lemma shrunk_refl late o : shrunk late o o.
Proof. by repeat split. Qed.

Lemma shrunk_trans late o1 o2 o3 : shrunk late o1 o2 → shrunk late o2 o3 → shrunk late o1 o3.
Proof.
  intros (?&?&H1) (?&?&H2). split; [by etrans|]. split; [by etrans|].
  intros Hl. etrans; [by apply H1|by apply H2].
Qed.

Lemma shrunk_weak late o' o : shrunk false o' o → shrunk late o' o.
Proof. intros (?&?&H). split; [done|]. split; [done|]. intros _. by apply H. Qed.

Lemma tame_refl late L c s : spared_store late L c s → tame late L c s s.
Proof. intros H. split; [done|apply shrunk_refl]. Qed.

Lemma tame_trans late L c s1 s2 s3 :
  tame late L c s1 s2 → tame late L c s2 s3 → tame late L c s1 s3.
Proof. intros [_ H1] [S2 H2]. split; [done|]. by eapply shrunk_trans. Qed.

Lemma tame_same late L c s s' :
  spared_store late L c s → comps s' = comps s → tame late L c s s'.
Proof.
  intros H Hc. assert (∀ y, get y s' = get y s) as Hg by (intros y; unfold get; by rewrite Hc).
  split; [|rewrite Hg; apply shrunk_refl].
  intros x cb. rewrite Hg. apply H.
Qed.

(** An update of [x] that only takes entries away. *)
Lemma tame_shrink late L c x f s :
  spared_store late L c s → (∀ o, shrunk false (f o) o) → tame late L c s (upd x f s).
Proof.
  intros H Hf. split.
  - intros y cb. destruct (decide (x = y)) as [<-|Hne].
    + rewrite get_upd_eq. intros Hcb. apply (H x).
      eapply elem_of_sublist; [exact Hcb|]. by apply Hf.
    + rewrite get_upd_ne by done. apply H.
  - destruct (decide (x = c)) as [->|Hne].
    + rewrite get_upd_eq. apply shrunk_weak, Hf.
    + rewrite get_upd_ne by done. apply shrunk_refl.
Qed.

(** An update of another component that queues at most spared callbacks. *)
Lemma tame_elsewhere late L c x f s :
  spared_store late L c s → x ≠ c →
  (∀ o cb, cb ∈ _disposables (f o) → cb ∈ _disposables o ∨ spares L c cb = true) →
  tame late L c s (upd x f s).
Proof.
  intros H Hne Hf. split.
  - intros y cb. destruct (decide (x = y)) as [<-|Hxy].
    + rewrite get_upd_eq. intros [Hcb|Hcb]%Hf; [by apply (H x)|].
      rewrite bool_decide_eq_false_2, andb_false_r by done. done.
    + rewrite get_upd_ne by done. apply H.
  - rewrite get_upd_ne by done. apply shrunk_refl.
Qed.

(** A callback queued on [c] itself while its disposables run. *)
Lemma tame_queue L c cb s :
  spared_store true L c s → spares_late L c cb = true →
  tame true L c s (Component.register c cb s).
Proof.
  intros H Hcb. unfold Component.register. split.
  - intros y cb'. destruct (decide (c = y)) as [<-|Hxy].
    + rewrite get_upd_eq. cbn. rewrite elem_of_app, list_elem_of_singleton.
      intros [Hin| ->]; [by apply (H c)|].
      by rewrite bool_decide_eq_true_2.
    + rewrite get_upd_ne by done. apply H.
  - rewrite get_upd_eq. by repeat split.
Qed.

Lemma spares_at_forall late L c sc :
  spares_at late L c sc = true ↔ ∀ a, a ∈ sc → adds late L c a = false.
Proof.
  destruct late; unfold spares_at, spares, spares_late, adds; rewrite forallb_forall;
    split; intros H a Ha;
    try (apply negb_true_iff, H, list_elem_of_In, Ha);
    try (apply negb_true_iff, H, list_elem_of_In, Ha).
Qed.

Lemma existsb_false {A} (f : A → bool) l :
  existsb f l = false → ∀ a, a ∈ l → f a = false.
Proof.
  intros H a Ha. destruct (f a) eqn:E; [|done].
  assert (existsb f l = true); [|congruence].
  apply existsb_exists. exists a. split; [by apply list_elem_of_In|done].
Qed.

Lemma tame_register late L c x cb s :
  adds late L c (CallRegister x cb) = false →
  spared_store late L c s → tame late L c s (Component.register x cb s).
Proof.
  intros Ha H. destruct (decide (x = c)) as [->|Hne].
  - destruct late; cbn [adds may_add may_add_late] in Ha.
    + rewrite bool_decide_eq_true_2 in Ha by done.
      apply tame_queue; [done|].
      apply (spares_at_forall true). by apply existsb_false.
    + by rewrite bool_decide_eq_true_2 in Ha.
  - assert (existsb (may_add L c) cb = false) as Hcb.
    { destruct late; cbn [adds may_add may_add_late] in Ha;
        rewrite bool_decide_eq_false_2 in Ha by done; done. }
    apply tame_elsewhere; [done|done|].
    intros o cb'. cbn. rewrite elem_of_app, list_elem_of_singleton.
    intros [Hin| ->]; [by left|right].
    apply (spares_at_forall false). by apply existsb_false.
Qed.

(** A registration method of [Plugin]: a host call, then a callback that
    only calls the host is queued. *)
Lemma tame_sugar late L c p h s s0 :
  (late = false → p ≠ c) →
  spared_store late L c s → comps s0 = comps s →
  tame late L c s (Component.register p [Host h] s0).
Proof.
  intros Hp Hst Hc. pose proof (tame_same late L c s s0 Hst Hc) as T0.
  eapply tame_trans; [exact T0|]. apply tame_register; [|apply T0].
  destruct late; cbn.
  - by destruct (bool_decide (p = c)).
  - rewrite bool_decide_eq_false_2 by by apply Hp. done.
Qed.

(** The disposables of [x] in a spared store, as [forEach_dispose_tame]
    wants them. *)
Lemma spared_disposables late L c x s :
  spared_store late L c s →
  Forall (fun cb => spares_at late L c cb = true) (_disposables (get x s)).
Proof.
  intros Hst. rewrite Forall_forall. intros cb Hcb. specialize (Hst x cb Hcb).
  destruct late; [|done]. cbn [andb] in Hst.
  destruct (bool_decide (x = c)); [done|]. by apply (spares_at_weak true).
Qed.

Section Tame.
Variable P : program.
Variable L : cid → bool.
Variable c : cid.
Variable late : bool.
Hypothesis code : spared_code P L c.
(** The calls that scripts make are tame. *)
Variable callf : action → state → outcome.
Hypothesis callf_tame : ∀ a s s',
  adds late L c a = false → spared_store late L c s → callf a s = Ret s' → tame late L c s s'.

Lemma run_tame sc s s' :
  spares_at late L c sc = true → spared_store late L c s →
  Component.run callf sc s = Ret s' → tame late L c s s'.
Proof.
  rewrite spares_at_forall.
  revert s. induction sc as [|a sc IH]; intros s Hsp Hst.
  - intros [= <-]. by apply tame_refl.
  - cbn [Component.run]. intros (s1 & H1 & H2)%bind_Ret.
    pose proof (callf_tame a s s1 (Hsp a (list_elem_of_here _ _)) Hst H1) as T1.
    eapply tame_trans; [exact T1|]. apply IH; [|apply T1|done].
    intros a' Ha'. apply Hsp. by apply list_elem_of_further.
Qed.

Lemma forEach_live_tame (read : state → list cid) todo : ∀ k s s',
  spared_store late L c s →
  forEach_live read (fun child => callf (CallUnload child)) todo k s = Ret s' →
  tame late L c s s'.
Proof.
  induction todo as [|todo IH]; intros k s s' Hst.
  - intros [= <-]. by apply tame_refl.
  - cbn [forEach_live]. destruct (read s !! k) as [x|].
    + intros (s1 & H1 & H2)%bind_Ret.
      assert (adds late L c (CallUnload x) = false) as Hx by by destruct late.
      pose proof (callf_tame (CallUnload x) s s1 Hx Hst H1) as T1.
      eapply tame_trans; [exact T1|]. eapply IH; [apply T1|done].
    + by apply IH.
Qed.

Lemma forEach_dispose_tame disps : ∀ s s',
  Forall (fun cb => spares_at late L c cb = true) disps →
  spared_store late L c s →
  forEach (Component.dispose callf) disps s = Ret s' → tame late L c s s'.
Proof.
  induction disps as [|cb disps IH]; intros s s' Hd Hst.
  - intros [= <-]. by apply tame_refl.
  - inversion Hd as [|? ? Hcb Hrest]; subst.
    cbn [forEach]. intros (s1 & H1 & H2)%bind_Ret.
    unfold Component.dispose in H1.
    assert (tame late L c s (record (EvDispose cb) s)) as T0 by by apply tame_same.
    assert (tame late L c s s1) as T1.
    { eapply tame_trans; [exact T0|].
      eapply run_tame; [exact Hcb|apply T0|exact H1]. }
    eapply tame_trans; [exact T1|]. apply IH; [done|apply T1|done].
Qed.

(** The states between the phases of an [unload] that returns. *)
Lemma unload_stages x s s' :
  _loaded (get x s) = true →
  Component.unload P callf x s = Ret s' →
  ∃ s1 s3 s4,
    forEach_live (children_array x (length (_children_retired (get x s))))
      (fun child => callf (CallUnload child)) (length (_children (get x s))) 0 s = Ret s1
    ∧ (let s2 := upd x (set_intervals [])
                   (records (cancel_trace (_intervals (get x (upd x fresh_children s1))))
                      (upd x fresh_children s1)) in
       forEach (Component.dispose callf) (_disposables (get x s2)) s2 = Ret s3)
    ∧ Component.onunload P callf x (upd x (set_disposables []) s3) = Ret s4
    ∧ s' = upd x (set_loaded false) s4.
Proof.
  intros Hl. unfold Component.unload. rewrite Hl. cbn [negb].
  intros (s1 & H1 & H)%bind_Ret. cbn zeta in H.
  rewrite forEach_cancel in H. cbn [bind] in H.
  apply bind_Ret in H as (s3 & H3 & H).
  apply bind_Ret in H as (s4 & H4 & H).
  injection H as <-. by exists s1, s3, s4.
Qed.

Lemma shrunk_fresh_children o : shrunk false (fresh_children o) o.
Proof. repeat split; cbn; try done. apply sublist_nil_l. Qed.
Lemma shrunk_no_intervals o : shrunk false (set_intervals [] o) o.
Proof. repeat split; cbn; try done. apply sublist_nil_l. Qed.
Lemma shrunk_no_disposables o : shrunk false (set_disposables [] o) o.
Proof. repeat split; cbn; try done. intros _. apply sublist_nil_l. Qed.
Lemma shrunk_set_loaded b o : shrunk false (set_loaded b o) o.
Proof. by repeat split. Qed.

Lemma onunload_tame x s s' :
  spared_store late L c s → Component.onunload P callf x s = Ret s' → tame late L c s s'.
Proof.
  intros Hst H. unfold Component.onunload in H.
  assert (tame late L c s (record (EvOnunload x) s)) as T0 by by apply tame_same.
  eapply tame_trans; [exact T0|].
  eapply run_tame; [apply spares_at_weak, (proj1 (code x))|apply T0|exact H].
Qed.

Lemma onload_tame x s s' :
  L x = true →
  spared_store late L c s → Component.onload P callf x s = Ret s' → tame late L c s s'.
Proof.
  intros HL Hst H. unfold Component.onload in H.
  assert (tame late L c s (record (EvOnload x) s)) as T0 by by apply tame_same.
  eapply tame_trans; [exact T0|].
  eapply run_tame; [by apply spares_at_weak, (proj2 (code x))|apply T0|exact H].
Qed.

Lemma unload_tame x s s' :
  spared_store late L c s → Component.unload P callf x s = Ret s' → tame late L c s s'.
Proof.
  intros Hst H. destruct (_loaded (get x s)) eqn:Hl.
  2:{ rewrite unload_unloaded in H by done. injection H as <-. by apply tame_refl. }
  apply unload_stages in H as (s1 & s3 & s4 & H1 & H3 & H4 & ->); [|done].
  cbn zeta in H3.
  pose proof (forEach_live_tame _ _ _ _ _ Hst H1) as T1.
  pose proof (tame_shrink late L c x fresh_children s1 (proj1 T1) shrunk_fresh_children) as TA.
  eapply tame_trans; [exact T1|]. eapply tame_trans; [exact TA|].
  set (sA := upd x fresh_children s1) in *.
  assert (tame late L c sA (records (cancel_trace (_intervals (get x sA))) sA)) as T2
    by (apply tame_same; [apply TA|done]).
  eapply tame_trans; [exact T2|].
  pose proof (tame_shrink late L c x (set_intervals []) _ (proj1 T2) shrunk_no_intervals) as TB.
  eapply tame_trans; [exact TB|].
  set (sB := upd x (set_intervals []) _) in *.
  assert (tame late L c sB s3) as T3.
  { eapply forEach_dispose_tame; [|apply TB|exact H3].
    apply spared_disposables, TB. }
  eapply tame_trans; [exact T3|].
  pose proof (tame_shrink late L c x (set_disposables []) _ (proj1 T3) shrunk_no_disposables)
    as TC.
  eapply tame_trans; [exact TC|].
  pose proof (onunload_tame _ _ _ (proj1 TC) H4) as T4.
  eapply tame_trans; [exact T4|].
  apply tame_shrink; [apply T4|]. apply shrunk_set_loaded.
Qed.

Lemma load_tame x s s' :
  L x = true →
  spared_store late L c s → Component.load P callf x s = Ret s' → tame late L c s s'.
Proof.
  intros HL Hst. unfold Component.load. destruct (_loaded (get x s)).
  - intros [= <-]. by apply tame_refl.
  - intros H.
    pose proof (tame_shrink late L c x (set_loaded true) s Hst (shrunk_set_loaded true)) as T0.
    eapply tame_trans; [exact T0|]. eapply onload_tame; [exact HL|apply T0|exact H].
Qed.

Lemma dispatch_tame a s s' :
  adds late L c a = false → spared_store late L c s →
  dispatch P callf a s = Ret s' → tame late L c s s'.
Proof.
  intros Ha Hst.
  assert (∀ x, (if late then false else bool_decide (x = c)) = false → late = false → x ≠ c)
    as Hother.
  { intros x Hx ->. by apply bool_decide_eq_false in Hx. }
  destruct a; cbn [dispatch] in *;
    try (intros [= <-]); try (by apply tame_same).
  - apply load_tame; [|done]. apply negb_false_iff. by destruct late.
  - by apply unload_tame.
  - by apply tame_register.
  - apply tame_elsewhere; [done| |by intros o cb; cbn; auto].
    destruct late; cbn in Ha; by apply bool_decide_eq_false in Ha.
  - apply tame_elsewhere; [done| |by intros o cb; cbn; auto].
    destruct late; cbn in Ha; by apply bool_decide_eq_false in Ha.
  - unfold Component.removeChild. destruct (indexOf _ _) as [index|]; cbn [snd].
    + apply tame_shrink; [done|]. intros o. repeat split; cbn; try done.
      apply sublist_delete.
    + by apply tame_refl.
  - apply tame_sugar; [|done|done]. apply Hother. by destruct late.
  - apply tame_sugar; [|done|done]. apply Hother. by destruct late.
  - apply tame_sugar; [|done|done]. apply Hother. by destruct late.
  - apply tame_sugar; [|done|done]. apply Hother. by destruct late.
Qed.
End Tame.

Lemma call_tame P L c late fuel :
  spared_code P L c →
  ∀ a s s', adds late L c a = false → spared_store late L c s →
            call P fuel a s = Ret s' → tame late L c s s'.
Proof.
  intros Hcode. induction fuel as [|fuel IH]; intros a s s' Ha Hst; [done|].
  cbn [call]. by apply dispatch_tame.
Qed.

(** [unload()] returns with a disposable still queued: on a loaded node
    whose teardown hook registers one, and on an unloaded node on which one
    was registered. *)
Lemma C3_counterexample :
  (∃ s', unload Late.prog 1 0 Late.s = Ret s'
     ∧ _loaded (get 0 s') = false
     ∧ _disposables (get 0 s') = [Late.cb])
  ∧ (let s := Component.register 0 Late.cb initial in
     unload Family.prog 1 0 s = Ret s ∧ _disposables (get 0 s) = [Late.cb]).
Proof.
  split.
  - eexists. split; [vm_compute; reflexivity|]. split; reflexivity.
  - split; reflexivity.
Qed.

(** C3, amended: let no code that the teardown of a loaded node [c] can reach
    leave an entry in the collections of [c]: no teardown hook of the
    program, no disposable queued on another node and no initialization hook
    of a node that such code loads (the nodes in [L]) adds an entry to [c],
    and the disposables queued on [c] itself do not either, except that they
    may register on [c] callbacks that are held to the same (what they
    register on [c] is dropped with the list).  Then after
    [unload()] has returned the children, timers and disposables of [c] are
    empty and its loaded flag is false, and the next [load()] enters the
    initialization hook with the flag set and the three collections empty.
    Nothing is asked of the initialization hooks outside [L], that of [c]
    included. *)
Theorem C3_unload_leaves_clean_slate P L fuel c s s' :
  _loaded (get c s) = true →
  spared_code P L c →
  (∀ x cb, x ≠ c → cb ∈ _disposables (get x s) → spares L c cb = true) →
  (∀ cb, cb ∈ _disposables (get c s) → spares_late L c cb = true) →
  unload P fuel c s = Ret s' →
  pristine (get c s')
  ∧ ∀ callf,
      let s0 := upd c (set_loaded true) s' in
      Component.load P callf c s' = Component.onload P callf c s0
      ∧ _loaded (get c s0) = true
      ∧ _children (get c s0) = []
      ∧ _intervals (get c s0) = []
      ∧ _disposables (get c s0) = [].
Proof.
  intros Hl Hcode Hothers Hown Hrun.
  assert (spared_store true L c s) as Hst.
  { intros x cb Hcb. cbn [andb]. destruct (decide (x = c)) as [->|Hne].
    - rewrite bool_decide_eq_true_2 by done. by apply Hown.
    - rewrite bool_decide_eq_false_2 by done. by apply (Hothers x). }
  change (unload P fuel c s) with (Component.unload P (call P fuel) c s) in Hrun.
  pose proof (call_tame P L c true fuel Hcode) as Hlate.
  pose proof (call_tame P L c false fuel Hcode) as Hstrict.
  apply unload_stages in Hrun as (s1 & s3 & s4 & H1 & H3 & H4 & ->); [|done].
  cbn zeta in H3.
  pose proof (forEach_live_tame L c true _ Hlate _ _ _ _ _ Hst H1) as T1.
  pose proof (tame_shrink true L c c fresh_children s1 (proj1 T1) shrunk_fresh_children) as TA.
  set (sA := upd c fresh_children s1) in *.
  assert (tame true L c sA (records (cancel_trace (_intervals (get c sA))) sA)) as T2
    by (apply tame_same; [apply TA|done]).
  pose proof (tame_shrink true L c c (set_intervals []) _ (proj1 T2) shrunk_no_intervals) as TB.
  set (sB := upd c (set_intervals []) _) in *.
  assert (tame true L c sB s3) as T3.
  { eapply (forEach_dispose_tame L c true _ Hlate); [|apply TB|exact H3].
    apply spared_disposables, TB. }
  set (sC := upd c (set_disposables []) s3) in *.
  assert (tame true L c s3 sC) as TC by (apply tame_shrink; [apply T3|apply shrunk_no_disposables]).
  assert (spared_store false L c sC) as HstC.
  { intros x cb Hcb. cbn [andb spares_at]. destruct (decide (x = c)) as [->|Hne].
    - unfold sC in Hcb. rewrite get_upd_eq in Hcb. by apply elem_of_nil in Hcb.
    - pose proof (proj1 TC x cb Hcb) as Hok.
      by rewrite bool_decide_eq_false_2, andb_false_r in Hok by done. }
  pose proof (onunload_tame P L c false Hcode _ Hstrict _ _ _ HstC H4) as T4.
  set (s' := upd c (set_loaded false) s4) in *.
  assert (get c s' = set_loaded false (get c s4)) as Hs' by (unfold s'; by rewrite get_upd_eq).
  assert (pristine (get c s')) as Hpr.
  { rewrite Hs'. split; [done|]. cbn [set_loaded _children _intervals _disposables].
    destruct T4 as [_ (Hc4 & Hi4 & Hd4)]. destruct TC as [_ (HcC & HiC & _)].
    destruct T3 as [_ (Hc3 & Hi3 & _)]. destruct TB as [_ (HcB & _ & _)].
    destruct T2 as [_ (Hc2 & _ & _)].
    split; [|split].
    - apply sublist_nil_r.
      assert (_children (get c sA) = []) as <- by (unfold sA; by rewrite get_upd_eq).
      do 4 (etrans; [eassumption|]). done.
    - apply sublist_nil_r.
      assert (_intervals (get c sB) = []) as <- by (unfold sB; by rewrite get_upd_eq).
      do 2 (etrans; [eassumption|]). done.
    - apply sublist_nil_r.
      assert (_disposables (get c sC) = []) as <- by (unfold sC; by rewrite get_upd_eq).
      by apply Hd4. }
  split; [exact Hpr|]. intros callf. cbn zeta.
  destruct Hpr as (Hl' & Hc' & Hi' & Hd').
  split; [unfold Component.load; by rewrite Hl'|].
  rewrite get_upd_eq. by repeat split.
Qed.

Lemma C3_unload_leaves_clean_slate_witness :
  (load Scenario.prog 5 0 initial = Ret Scenario.loaded
   ∧ ∃ s', unload Scenario.prog 5 0 Scenario.loaded = Ret s' ∧ pristine (get 0 s'))
  ∧ (∃ s', unload Family.prog 1 0 Chained.s = Ret s' ∧ pristine (get 0 s')).
Proof.
  split.
  - split; [vm_compute; reflexivity|].
    eexists. split; [vm_compute; reflexivity|].
    refine (proj1 (C3_unload_leaves_clean_slate Scenario.prog (fun _ => false) 5 0
                     Scenario.loaded _ _ _ _ _ _)).
    + reflexivity.
    + intros x. split; [reflexivity|discriminate].
    + intros x cb Hx. unfold Scenario.loaded. rewrite get_records, get_upd_ne by done.
      destruct (decide (1 = x)) as [<-|?]; [by rewrite get_upd_eq; intros ?%elem_of_nil|].
      rewrite get_upd_ne by done. by intros ?%elem_of_nil.
    + intros cb. unfold Scenario.loaded. rewrite get_records, get_upd_eq. cbn.
      intros ->%list_elem_of_singleton. reflexivity.
    + vm_compute. reflexivity.
  - eexists. split; [vm_compute; reflexivity|].
    refine (proj1 (C3_unload_leaves_clean_slate Family.prog (fun _ => false) 1 0
                     Chained.s _ _ _ _ _ _)).
    + reflexivity.
    + intros x. split; [reflexivity|discriminate].
    + intros x cb Hx. unfold Chained.s. rewrite get_upd_ne by done. by intros ?%elem_of_nil.
    + intros cb. unfold Chained.s. rewrite get_upd_eq. cbn.
      intros ->%list_elem_of_singleton. reflexivity.
    + vm_compute. reflexivity.
Defined.


Lemma gentle_ret {W A} (a : A) : gentle (W := W) (Async.ret a).
Proof. intros ws r ws' [= <- <-]. done. Qed.

Lemma gentle_eval {W A} (r : settled A) : gentle (W := W) (Async.eval r).
Proof. intros ws r' ws' [= <- <-]. done. Qed.

Lemma gentle_read {W A} (f : state → A) : gentle (W := W) (Async.read f).
Proof. intros ws r' ws' [= <- <-]. done. Qed.

Lemma gentle_await {W A} (f : W → settled A * W) : gentle (Async.await f).
Proof.
  intros ws r ws'. unfold Async.await. destruct (f ws.1) as [r0 w0]. intros [= <- <-]. done.
Qed.

Lemma gentle_bind {W A B} (m : Async.io W A) (k : A → Async.io W B) :
  gentle m → (∀ a, gentle (k a)) → gentle (Async.bind m k).
Proof.
  intros Hm Hk ws r ws'. unfold Async.bind.
  destruct (m ws) as [[a|e] ws1] eqn:E1.
  - intros E2. destruct (Hm _ _ _ E1) as (C1 & D1 & Q1).
    destruct (Hk a _ _ _ E2) as (C2 & D2 & Q2).
    split; [congruence|]. split; [congruence|]. intros q.
    destruct (Q1 q) as (?&?&?), (Q2 q) as (?&?&?). repeat split; congruence.
  - intros [= <- <-]. by apply (Hm _ _ _ E1).
Qed.

Lemma gentle_try_catch {W A} (m : Async.io W A) (handler : string → Async.io W A) :
  gentle m → (∀ e, gentle (handler e)) → gentle (Async.try_catch m handler).
Proof.
  intros Hm Hk ws r ws'. unfold Async.try_catch.
  destruct (m ws) as [[a|e] ws1] eqn:E1.
  - intros [= <- <-]. by apply (Hm _ _ _ E1).
  - intros E2. destruct (Hm _ _ _ E1) as (C1 & D1 & Q1).
    destruct (Hk e _ _ _ E2) as (C2 & D2 & Q2).
    split; [congruence|]. split; [congruence|]. intros q.
    destruct (Q1 q) as (?&?&?), (Q2 q) as (?&?&?). repeat split; congruence.
Qed.

Lemma gentle_log_error {W} msg error : gentle (W := W) (Settings.log_error msg error).
Proof. intros ws r ws' [= <- <-]. done. Qed.

Lemma gentle_set_settings {W} p d : gentle (W := W) (Async.modify (updp p (set_settings d))).
Proof.
  intros ws r ws' [= <- <-]. cbn. split; [done|]. split; [done|].
  intros q. destruct (decide (p = q)) as [<-|Hne].
  - by rewrite getp_updp_eq.
  - by rewrite getp_updp_ne.
Qed.

Lemma gentle_getSettingsDir {W} (h : host W) P p : gentle (Settings.getSettingsDir h P p).
Proof. repeat (apply gentle_bind; [|intros ?]); apply gentle_await. Qed.

Lemma gentle_getSettingsPath {W} (h : host W) P p : gentle (Settings.getSettingsPath h P p).
Proof.
  apply gentle_bind; [apply gentle_await|intros _].
  apply gentle_bind; [apply gentle_getSettingsDir|intros ?]. apply gentle_await.
Qed.

Lemma gentle_ensureSettingsDir {W} (h : host W) P p : gentle (Settings.ensureSettingsDir h P p).
Proof.
  apply gentle_try_catch; [|intros e; apply gentle_log_error].
  repeat (apply gentle_bind; [|intros ?]);
    try apply gentle_await; destruct (negb _); try apply gentle_await; apply gentle_ret.
Qed.

Lemma gentle_loadData_try {W} (h : host W) P p : gentle (Settings.loadData_try h P p).
Proof.
  apply gentle_bind; [apply gentle_await|intros _].
  apply gentle_bind; [apply gentle_getSettingsPath|intros path].
  apply gentle_bind; [apply gentle_await|intros [|]]; [|apply gentle_ret].
  apply gentle_bind; [apply gentle_await|intros data].
  apply gentle_bind; [apply gentle_eval|intros parsed].
  apply gentle_bind; [apply gentle_set_settings|intros _]. apply gentle_read.
Qed.

Lemma gentle_saveData_try {W} (h : host W) P p data : gentle (Settings.saveData_try h P p data).
Proof.
  apply gentle_bind; [apply gentle_await|intros _].
  apply gentle_bind; [apply gentle_ensureSettingsDir|intros _].
  apply gentle_bind; [apply gentle_getSettingsPath|intros path].
  apply gentle_bind; [apply gentle_set_settings|intros _].
  apply gentle_bind; [apply gentle_eval|intros text]. apply gentle_await.
Qed.

(** C8: the promise of [loadData] is never rejected.  It is fulfilled with
    [{}] when the settings file does not exist (nothing is logged then) and
    when anything in its [try] block fails, the read and the parse included
    (the failure is logged); a result other than [{}] is what was parsed
    from the file.  The promise of [saveData] is never rejected either: a
    failure in its [try] block, the write included, is logged and swallowed.
    Neither changes any component: loaded flags, children, timers and
    disposables stay as they were. *)
Theorem C8_persistence_never_raises {W} (h : host W) P p data ws :
  (∃ v ws', Settings.loadData h P p ws = (Fulfilled v, ws')
     ∧ comps ws'.2 = comps ws.2
     ∧ (∀ e ws1, Settings.loadData_try h P p ws = (Rejected e, ws1) →
          v = empty_settings
          ∧ ws' = (ws1.1, record (EvHost (console_error
                     ("Failed to load settings for " +:+ manifest_id P p +:+ ":") e)) ws1.2))
     ∧ (∀ w1 path w2 w3,
          import_fs h ws.1 = (Fulfilled tt, w1) →
          Settings.getSettingsPath h P p (w1, ws.2) = (Fulfilled path, (w2, ws.2)) →
          exists_ h path w2 = (Fulfilled false, w3) →
          v = empty_settings ∧ ws' = (w3, ws.2))
     ∧ (∀ w1 path w2 w3 w4 e,
          import_fs h ws.1 = (Fulfilled tt, w1) →
          Settings.getSettingsPath h P p (w1, ws.2) = (Fulfilled path, (w2, ws.2)) →
          exists_ h path w2 = (Fulfilled true, w3) →
          readTextFile h path w3 = (Rejected e, w4)
          ∨ (∃ text, readTextFile h path w3 = (Fulfilled text, w4)
                     ∧ JSON_parse h text = Rejected e) →
          v = empty_settings ∧ ws'.1 = w4 ∧ comps ws'.2 = comps ws.2))
  ∧ (∃ ws', Settings.saveData h P p data ws = (Fulfilled tt, ws')
       ∧ comps ws'.2 = comps ws.2
       ∧ (∀ e ws1, Settings.saveData_try h P p data ws = (Rejected e, ws1) →
            ws' = (ws1.1, record (EvHost (console_error
                     ("Failed to save settings for " +:+ manifest_id P p +:+ ":") e)) ws1.2))).
Proof.
  split.
  - pose proof (gentle_loadData_try h P p ws) as G.
    unfold Settings.loadData, Async.try_catch.
    destruct (Settings.loadData_try h P p ws) as [[v|e] ws1] eqn:E.
    + exists v, ws1. split; [done|]. split; [by apply (G _ _ eq_refl)|].
      split; [intros e ws2 [=]|]. split.
      * intros w1 path w2 w3 H1 H2 H3.
        unfold Settings.loadData_try, Async.bind, Async.await in E.
        rewrite H1 in E. cbn [fst snd] in E. rewrite H2 in E. cbn [fst snd] in E.
        rewrite H3 in E. by injection E as <- <-.
      * intros w1 path w2 w3 w4 e H1 H2 H3 H4.
        unfold Settings.loadData_try, Async.bind, Async.await in E.
        rewrite H1 in E. cbn [fst snd] in E. rewrite H2 in E. cbn [fst snd] in E.
        rewrite H3 in E. cbn [fst snd] in E.
        destruct H4 as [H4|(text & H4 & H5)]; rewrite H4 in E; [discriminate E|].
        unfold Async.eval in E. rewrite H5 in E. discriminate E.
    + eexists _, _. split; [reflexivity|].
      split; [by apply (G _ _ eq_refl)|].
      split; [intros e' ws2 [= <- <-]; done|]. split.
      * intros w1 path w2 w3 H1 H2 H3.
        unfold Settings.loadData_try, Async.bind, Async.await in E.
        rewrite H1 in E. cbn [fst snd] in E. rewrite H2 in E. cbn [fst snd] in E.
        rewrite H3 in E. discriminate E.
      * intros w1 path w2 w3 w4 e' H1 H2 H3 H4.
        split; [done|].
        unfold Settings.loadData_try, Async.bind, Async.await in E.
        rewrite H1 in E. cbn [fst snd] in E. rewrite H2 in E. cbn [fst snd] in E.
        rewrite H3 in E. cbn [fst snd] in E.
        pose proof (G _ _ eq_refl) as (Hc & _).
        destruct H4 as [H4|(text & H4 & H5)]; rewrite H4 in E.
        -- injection E as <- <-. done.
        -- unfold Async.eval in E. rewrite H5 in E. injection E as <- <-. done.
  - pose proof (gentle_saveData_try h P p data ws) as G.
    unfold Settings.saveData, Async.try_catch.
    destruct (Settings.saveData_try h P p data ws) as [[[]|e] ws1] eqn:E.
    + exists ws1. split; [done|]. split; [by apply (G _ _ eq_refl)|]. intros e ws2 [=].
    + eexists. split; [reflexivity|]. split; [by apply (G _ _ eq_refl)|].
      intros e' ws2 [= <- <-]. done.
Qed.

Lemma C8_persistence_never_raises_witness :
  Settings.loadData Memory.h Greeter.prog 0 (∅, initial) = (Fulfilled empty_settings, (∅, initial))
  ∧ ∃ ws', Settings.loadData Memory.h Greeter.prog 0 (Memory.garbled, initial)
           = (Fulfilled empty_settings, ws')
           ∧ comps ws'.2 = comps initial.
Proof.
  split.
  - destruct (C8_persistence_never_raises Memory.h Greeter.prog 0 empty_settings (∅, initial))
      as [(v & ws' & Hrun & _ & _ & Habsent & _) _].
    destruct (Habsent ∅ "/config/plugins/my-plugin/settings.json" ∅ ∅) as [-> ->];
      [reflexivity|reflexivity|reflexivity|exact Hrun].
  - destruct (C8_persistence_never_raises Memory.h Greeter.prog 0 empty_settings
                (Memory.garbled, initial))
      as [(v & ws' & Hrun & _ & _ & _ & Hfail) _].
    destruct (Hfail Memory.garbled "/config/plugins/my-plugin/settings.json"
                Memory.garbled Memory.garbled Memory.garbled "SyntaxError")
      as (-> & _ & Hc); [reflexivity|reflexivity|reflexivity| |].
    + right. exists "{oops". split; reflexivity.
    + exists ws'. split; [exact Hrun|exact Hc].
Defined.


(** ** Timers *)



(** ** Loading *)

(** X2: [load()] does not cascade.  With a hook that only talks to the
    outside (or calls [this.load()] again) it returns, and all it changes
    in the store is the loaded flag of the node itself: the children stay
    listed and no child, loaded or not, is touched. *)
Theorem X2_load_does_not_load_children P fuel c s :
  _loaded (get c s) = false →
  forallb (reentrant c) (onload_of P c) = true →
  ∃ s1, load P (S fuel) c s = Ret s1
    ∧ get c s1 = set_loaded true (get c s)
    ∧ (∀ y, y ≠ c → get y s1 = get y s)
    ∧ ∀ x, x ∈ _children (get c s1) → x ≠ c → _loaded (get x s1) = _loaded (get x s).
Proof.
  intros Hl Hq.
  exists (records (EvOnload c :: effects (plugs s) (onload_of P c)) (upd c (set_loaded true) s)).
  split; [|split; [|split]].
  - change (load P (S fuel) c s) with (Component.load P (call P (S fuel)) c s).
    unfold Component.load. rewrite Hl.
    unfold Component.onload. rewrite (run_reentrant P fuel c).
    + by rewrite record_records, records_app.
    + done.
    + by rewrite get_record, get_upd_eq.
  - by rewrite get_records, get_upd_eq.
  - intros y Hy. by rewrite get_records, get_upd_ne.
  - intros x _ Hx. by rewrite get_records, get_upd_ne.
Qed.

Lemma X2_load_does_not_load_children_witness :
  ∃ s1, load Family.prog 1 0 (upd 0 (set_loaded false) Family.s) = Ret s1
    ∧ _children (get 0 s1) = [1; 2; 3]
    ∧ get 1 s1 = get 1 Family.s.
Proof.
  destruct (X2_load_does_not_load_children Family.prog 0 0 (upd 0 (set_loaded false) Family.s))
    as (s1 & H1 & Hg & Hfr & _); [reflexivity|reflexivity|].
  exists s1. split; [exact H1|]. split.
  - rewrite Hg. reflexivity.
  - rewrite Hfr by discriminate. reflexivity.
Defined.



(** ** Cycles *)

(** X4: a loaded component that is among its own children, behind children
    that are not loaded, cannot be unloaded: the cascade comes back to it
    while its flag is still set, and no depth of nesting lets [unload()]
    return (in JavaScript the recursion overflows the stack). *)
Theorem X4_own_child_never_unloads P c pre post s :
  _loaded (get c s) = true →
  _children (get c s) = pre ++ c :: post →
  Forall (fun x => _loaded (get x s) = false) pre →
  ∀ fuel, unload P fuel c s = Diverge.
Proof.
  intros Hl Hch Hpre.
  assert (∀ fuel, call P fuel (CallUnload c) s = Diverge) as H; [|intros fuel; apply H].
  induction fuel as [|fuel IH]; [done|].
  cbn [call dispatch]. unfold Component.unload. rewrite Hl. cbn [negb].
  rewrite Hch, length_app. cbn [length].
  rewrite forEach_live_split. cbn [Nat.add].
  set (read := children_array c (length (_children_retired (get c s)))).
  assert (read s = pre ++ c :: post) as Hread.
  { unfold read, children_array. by rewrite decide_True. }
  destruct fuel as [|fuel].
  - destruct pre as [|x pre].
    + cbn [length forEach_live bind]. rewrite Hread. done.
    + cbn [length forEach_live]. rewrite Hread. done.
  - rewrite (forEach_live_idle P fuel read s).
    + cbn [bind forEach_live]. rewrite Hread, list_lookup_middle by done.
      by rewrite IH.
    + intros i x Hx Hi. rewrite Hread in Hx.
      rewrite lookup_app_l in Hx by lia.
      rewrite Forall_forall in Hpre. apply Hpre. by eapply list_elem_of_lookup_2.
Qed.

Lemma X4_own_child_never_unloads_witness :
  unload Family.prog 50 0 (Component.addChild 0 0 (upd 0 (set_loaded true) initial)).2 = Diverge.
Proof.
  apply (X4_own_child_never_unloads Family.prog 0 [] []); [reflexivity|reflexivity|constructor].
Defined.

(** ** Forests *)

Lemma bind_middle {A B} (f : A → list B) l1 k l2 :
  (l1 ++ k :: l2) ≫= f = (l1 ≫= f) ++ f k ++ (l2 ≫= f).
Proof. by rewrite bind_app. Qed.

Lemma root_in_nodes t : root t ∈ nodes t.
Proof. destruct t. cbn. apply list_elem_of_here. Qed.

Lemma root_in_forest (ts : list tree) k : k ∈ ts → root k ∈ ts ≫= nodes.
Proof. intros Hk. apply list_elem_of_bind. exists k. split; [apply root_in_nodes|done]. Qed.

(** Taking one tree out of a forest without repeated nodes. *)
Lemma NoDup_forest_drop c l1 k l2 :
  NoDup (c :: ((l1 ++ k :: l2) ≫= nodes)) →
  (c ∉ nodes k)
  ∧ (c ∉ (l1 ++ l2) ≫= nodes)
  ∧ NoDup ((l1 ++ l2) ≫= nodes)
  ∧ NoDup (nodes k)
  ∧ ∀ y, y ∈ nodes k → y ∉ (l1 ++ l2) ≫= nodes.
Proof.
  rewrite NoDup_cons, bind_middle, bind_app.
  intros [Hc Hnd].
  apply not_elem_of_app in Hc as [Hc1 Hc]. apply not_elem_of_app in Hc as [Hck Hc2].
  apply NoDup_app in Hnd as (N1 & D1 & Hnd). apply NoDup_app in Hnd as (Nk & Dk & N2).
  split; [done|]. split; [by apply not_elem_of_app|].
  split.
  - apply NoDup_app. split; [done|]. split; [|done].
    intros y Hy1 Hy2. apply (D1 y Hy1). apply elem_of_app. by right.
  - split; [done|]. intros y Hy. apply not_elem_of_app. split.
    + intros Hy1. apply (D1 y Hy1). apply elem_of_app. by left.
    + by apply Dk.
Qed.

Lemma height_forest_drop c b l1 k l2 timers disps timers' disps' :
  height (Node c b (l1 ++ l2) timers' disps') ≤ height (Node c b (l1 ++ k :: l2) timers disps).
Proof.
  cbn [height]. apply le_n_S. induction l1 as [|k1 l1 IH]; cbn; lia.
Qed.

Lemma shape_kids P s c b kids timers disps :
  shape P s (Node c b kids timers disps) → Forall (shape P s) kids.
Proof. by inversion 1. Qed.

(** ** Children that the cascade leaves alone *)

(** X5: [addChild] does not load and the parent's [unload()] does not clean
    up what was never loaded: a child whose flag is false is dropped from
    the children with its own timers and disposables still queued; none of
    them is cancelled or run. *)
Theorem X5_unloaded_child_dropped_uncleaned P fuel c l1 x kk kt kd l2 timers disps s :
  shape P s (Node c true (l1 ++ Node x false kk kt kd :: l2) timers disps) →
  NoDup (nodes (Node c true (l1 ++ Node x false kk kt kd :: l2) timers disps)) →
  height (Node c true (l1 ++ Node x false kk kt kd :: l2) timers disps) ≤ fuel →
  ∃ s', unload P fuel c s = Ret s'
    ∧ log s' = log s
        ++ ((l1 ++ l2) ≫= trace P (plugs s))
        ++ cancel_trace timers
        ++ (disps ≫= dispose_trace (plugs s))
        ++ EvOnunload c :: effects (plugs s) (onunload_of P c)
    ∧ _children (get c s') = []
    ∧ get x s' = get x s
    ∧ _intervals (get x s') = kt
    ∧ _disposables (get x s') = kd.
Proof.
  intros Hsh Hnd Hh.
  destruct (unload_tree P _ s (S fuel) Hsh Hnd) as (s' & Hrun & T); [lia|].
  destruct (torn_single _ _ _ _ T) as [V R].
  pose proof Hnd as Hnd'. cbn [nodes] in Hnd'.
  apply NoDup_forest_drop in Hnd' as (Hck & Hc & _ & _ & Hdis).
  assert (get x s' = get x s) as Hx.
  { apply R. cbn [live]. rewrite bind_middle. cbn [live app].
    rewrite not_elem_of_cons, <- bind_app. split.
    - intros ->. apply Hck. apply list_elem_of_here.
    - intros Hl%live_forest_nodes. eapply Hdis; [|exact Hl]. apply list_elem_of_here. }
  apply shape_kids in Hsh as Hkids.
  apply Forall_app in Hkids as [_ Hkids]. apply Forall_cons in Hkids as [Hk _].
  inversion Hk; subst.
  exists s'. split; [exact Hrun|]. split.
  { rewrite (torn_log _ _ _ _ T). cbn [trace].
    by rewrite bind_middle, bind_app. }
  split; [apply (V c); cbn [live]; apply list_elem_of_here|].
  split; [done|]. by rewrite Hx.
Qed.

(** X6: [removeChild(x)] hands the child over without unloading it: the
    parent's next [unload()] tears down the remaining children only, and
    every component of the removed subtree is as it was, loaded flag,
    timers and disposables included. *)
Theorem X6_removed_child_outlives_parent P fuel c l1 k l2 timers disps s :
  shape P s (Node c true (l1 ++ k :: l2) timers disps) →
  NoDup (nodes (Node c true (l1 ++ k :: l2) timers disps)) →
  height (Node c true (l1 ++ k :: l2) timers disps) ≤ fuel →
  (Component.removeChild c (root k) s).1 = root k
  ∧ _children (get c (Component.removeChild c (root k) s).2) = map root (l1 ++ l2)
  ∧ (∀ y, y ≠ c → get y (Component.removeChild c (root k) s).2 = get y s)
  ∧ ∃ s', unload P fuel c (Component.removeChild c (root k) s).2 = Ret s'
      ∧ log s' = log s
          ++ ((l1 ++ l2) ≫= trace P (plugs s))
          ++ cancel_trace timers
          ++ (disps ≫= dispose_trace (plugs s))
          ++ EvOnunload c :: effects (plugs s) (onunload_of P c)
      ∧ (∀ y, y ∈ nodes k → get y s' = get y s)
      ∧ _children (get c s') = []
      ∧ _loaded (get c s') = false.
Proof.
  intros Hsh Hnd Hh.
  pose proof Hnd as Hnd'. cbn [nodes] in Hnd'.
  apply NoDup_forest_drop in Hnd' as (Hck & Hc & Hnd2 & _ & Hdis).
  inversion Hsh as [? ? ? ? ? Hl Hch Hti Hdi Hq Hqh Hkids]; subst.
  assert (root k ∉ map root l1) as Hfirst.
  { intros Hin. apply list_elem_of_In, in_map_iff in Hin as (k1 & Hr & Hk1).
    apply list_elem_of_In in Hk1.
    apply (Hdis (root k)); [apply root_in_nodes|].
    rewrite <- Hr. apply root_in_forest. apply elem_of_app. by left. }
  rewrite map_app in Hch. cbn [map] in Hch.
  rewrite (removeChild_first c (root k) s _ _ Hch Hfirst). cbn [fst snd].
  set (s0 := upd c _ s).
  assert (get c s0 = set_children (map root (l1 ++ l2)) (get c s)) as Hg0.
  { unfold s0. by rewrite get_upd_eq, map_app. }
  assert (∀ y, y ≠ c → get y s0 = get y s) as Hfr0.
  { intros y Hy. unfold s0. by rewrite get_upd_ne. }
  split; [done|]. split; [by rewrite Hg0|]. split; [done|].
  destruct (unload_tree P (Node c true (l1 ++ l2) (_intervals (get c s))
              (_disposables (get c s))) s0 (S fuel)) as (s' & Hrun & T).
  { constructor; rewrite ?Hg0; try done.
    apply Forall_app in Hkids as [H1 H2]. apply Forall_cons in H2 as [_ H2].
    assert (Forall (shape P s) (l1 ++ l2)) as H12 by (apply Forall_app; done).
    rewrite Forall_forall in H12. rewrite Forall_forall. intros k' Hk'.
    eapply shape_frame; [|by apply H12].
    intros y Hy. apply Hfr0. intros ->. apply Hc. apply list_elem_of_bind. eauto. }
  { cbn [nodes]. by apply NoDup_cons. }
  { pose proof (height_forest_drop c true l1 k l2 (_intervals (get c s))
                  (_disposables (get c s)) (_intervals (get c s)) (_disposables (get c s))).
    lia. }
  destruct (torn_single _ _ _ _ T) as [V R].
  destruct (V c) as (Hl' & Hch' & _); [cbn [live]; apply list_elem_of_here|].
  exists s'. split; [exact Hrun|]. split; [exact (torn_log _ _ _ _ T)|].
  split; [|done].
  intros y Hy. rewrite R.
  - apply Hfr0. intros ->. by apply Hck.
  - cbn [live]. rewrite not_elem_of_cons. split.
    + intros ->. by apply Hck.
    + intros Hy'%live_forest_nodes. by apply (Hdis y).
Qed.

Lemma X5_unloaded_child_dropped_uncleaned_witness :
  ∃ s', unload Family.prog 2 0 Mixed.s = Ret s'
    ∧ log s' = [EvOnunload 1; EvNote "bye"; EvOnunload 0; EvNote "bye"]
    ∧ _children (get 0 s') = []
    ∧ _disposables (get 2 s') = [Family.d1].
Proof.
  destruct (X5_unloaded_child_dropped_uncleaned Family.prog 2 0 [Family.leaf 1] 2 []
              [5%Z] [Family.d1] [] [] [] Mixed.s)
    as (s' & Hrun & Hlog & Hch & _ & _ & Hd).
  - repeat (constructor; try reflexivity).
  - apply (bool_decide_unpack _). vm_compute. reflexivity.
  - vm_compute. lia.
  - exists s'. split; [exact Hrun|]. split; [rewrite Hlog; reflexivity|].
    split; [exact Hch|exact Hd].
Defined.

Lemma X6_removed_child_outlives_parent_witness :
  ∃ s', unload Family.prog 2 0 (Component.removeChild 0 2 Family.s).2 = Ret s'
    ∧ log s' = [EvOnunload 1; EvNote "bye"; EvOnunload 3; EvNote "bye";
                EvHost (window_clearInterval 7);
                EvDispose Family.d1; EvNote "d1"; EvDispose Family.d2; EvNote "d2";
                EvOnunload 0; EvNote "bye"]
    ∧ _loaded (get 2 s') = true.
Proof.
  destruct (X6_removed_child_outlives_parent Family.prog 2 0 [Family.leaf 1] (Family.leaf 2)
              [Family.leaf 3] [7%Z] [Family.d1; Family.d2] Family.s family_shape family_NoDup)
    as (_ & _ & _ & s' & Hrun & Hlog & Hk & _).
  - vm_compute. lia.
  - exists s'. split; [exact Hrun|]. split; [rewrite Hlog; reflexivity|].
    rewrite (Hk 2); [reflexivity|]. apply list_elem_of_here.
Defined.

Lemma root_unloaded_after P (kids : list tree) tr s s1 k :
  torn kids tr s s1 → Forall (shape P s) kids → k ∈ kids →
  _loaded (get (root k) s1) = false.
Proof.
  intros T Hsh Hk. rewrite Forall_forall in Hsh. specialize (Hsh k Hk).
  destruct (decide (root k ∈ kids ≫= live)) as [Hin|Hout].
  - by destruct (torn_live _ _ _ _ T _ Hin).
  - rewrite (torn_rest _ _ _ _ T _ Hout).
    inversion Hsh as [c b kk kt kd Hl]; subst. cbn [root] in *.
    destruct (_loaded (get c s)); [|done].
    exfalso. apply Hout. apply list_elem_of_bind.
    eexists. split; [|exact Hk]. cbn [live]. apply list_elem_of_here.
Qed.

(** The loop over an array in which nodes occur again: every node is torn
    down when it first comes up, and is not loaded any more when it comes up
    again. *)
Lemma unload_kids_firsts P fuel c g : ∀ l pre seen kids s,
  _children (get c s) = pre ++ l →
  length (_children_retired (get c s)) = g →
  firsts_from seen l = map root kids →
  (∀ x, x ∈ seen → _loaded (get x s) = false) →
  (∀ x, x ∈ seen → x ∉ kids ≫= nodes) →
  c ∉ kids ≫= nodes →
  NoDup (kids ≫= nodes) →
  Forall (shape P s) kids →
  Forall (fun k => height k ≤ fuel) kids →
  ∃ s', forEach_live (children_array c g) (fun child => call P (S fuel) (CallUnload child))
          (length l) (length pre) s = Ret s'
        ∧ torn kids (kids ≫= trace P (plugs s)) s s'
        ∧ ∀ x, x ∈ seen ∨ x ∈ l → _loaded (get x s') = false.
Proof.
  induction l as [|x r IH]; intros pre seen kids s Hch Hg Hf Hseen Hsk Hc Hnd Hsh Hh.
  - destruct kids; [|done]. exists s. split; [done|]. split; [apply torn_nil|].
    intros y [Hy|Hy%elem_of_nil]; [by apply Hseen|done].
  - cbn [length forEach_live].
    assert (children_array c g s !! length pre = Some x) as ->.
    { unfold children_array. rewrite decide_True by done. rewrite Hch.
      by apply list_lookup_middle. }
    assert (_children (get c s) = (pre ++ [x]) ++ r) as Hch' by by rewrite <- app_assoc.
    assert (S (length pre) = length (pre ++ [x])) as -> by (rewrite length_app; cbn; lia).
    cbn [firsts_from] in Hf. destruct (decide (x ∈ seen)) as [Hx|Hx].
    + cbn [call dispatch]. rewrite unload_unloaded by by apply Hseen. cbn [bind].
      destruct (IH (pre ++ [x]) seen kids s) as (s' & Hrun & T & Hfl); try done.
      exists s'. split; [done|]. split; [done|].
      intros y [Hy|[->|Hy]%elem_of_cons]; apply Hfl; auto.
    + destruct kids as [|k kids]; [done|]. cbn [map] in Hf. injection Hf as Hx' Hf.
      cbn in Hc, Hnd. apply NoDup_app in Hnd as (Hndk & Hdis & Hndr).
      apply not_elem_of_app in Hc as [Hck Hcr].
      inversion Hsh as [|? ? Hshk Hshr]; subst.
      inversion Hh as [|? ? Hhk Hhr]; subst.
      destruct (unload_tree P k s (S fuel) Hshk Hndk) as (s1 & -> & T1); [lia|]. cbn [bind].
      assert (∀ y, y ∉ nodes k → get y s1 = get y s) as Hfr.
      { intros y Hy. apply (torn_rest _ _ _ _ T1). cbn. rewrite app_nil_r.
        by intros ?%live_nodes. }
      destruct (IH (pre ++ [root k]) (root k :: seen) kids s1) as (s' & Hrun & T & Hfl).
      * by rewrite Hfr.
      * by rewrite Hfr.
      * done.
      * intros y [->|Hy]%elem_of_cons.
        -- eapply (root_unloaded_after P [k]); [exact T1|by constructor|apply list_elem_of_here].
        -- rewrite Hfr; [by apply Hseen|].
           intros Hin. apply (Hsk y Hy). cbn. apply elem_of_app. by left.
      * intros y [->|Hy]%elem_of_cons.
        -- apply Hdis. apply root_in_nodes.
        -- intros Hin. apply (Hsk y Hy). cbn. apply elem_of_app. by right.
      * done.
      * done.
      * rewrite Forall_forall in Hshr. rewrite Forall_forall. intros k' Hk'.
        eapply shape_frame; [|by apply Hshr].
        intros y Hy. apply Hfr. intros Hin.
        apply (Hdis y Hin). apply list_elem_of_bind. eauto.
      * done.
      * exists s'. split; [done|]. split.
        -- cbn [mbind list_bind]. rewrite <- (torn_plugs _ _ _ _ T1) at 2.
           eapply torn_cons; [|done|done].
           intros y Hl Hr. apply (Hdis y); [by apply live_nodes|by apply live_forest_nodes].
        -- intros y [Hy|[->|Hy]%elem_of_cons]; apply Hfl.
           ++ left. by apply list_elem_of_further.
           ++ left. apply list_elem_of_here.
           ++ by right.
Qed.

(** X7: [addChild] keeps no set: a child that was added again sits in the
    children once more, wherever that is.  The cascade tears every child
    down when it first comes up; when an entry comes up whose node was there
    before, its flag is false and that [unload()] is a no-op, so the
    teardown of the parent records what it would without the repeated
    entries. *)
Theorem X7_repeated_child_unloaded_once P fuel c kids s :
  _loaded (get c s) = true →
  firsts (_children (get c s)) = map root kids →
  Forall (shape P s) kids →
  NoDup (c :: (kids ≫= nodes)) →
  Forall (fun k => height k ≤ fuel) kids →
  Forall (fun cb => quiet cb = true) (_disposables (get c s)) →
  quiet (onunload_of P c) = true →
  ∃ s', unload P (S fuel) c s = Ret s'
    ∧ log s' = log s
        ++ (kids ≫= trace P (plugs s))
        ++ cancel_trace (_intervals (get c s))
        ++ (_disposables (get c s) ≫= dispose_trace (plugs s))
        ++ EvOnunload c :: effects (plugs s) (onunload_of P c)
    ∧ pristine (get c s')
    ∧ ∀ x, x ∈ _children (get c s) → _loaded (get x s') = false.
Proof.
  intros Hl Hf Hsh Hnd Hh Hq Hqh.
  apply NoDup_cons in Hnd as [Hc Hnd].
  set (g := length (_children_retired (get c s))).
  destruct (unload_kids_firsts P fuel c g (_children (get c s)) [] [] kids s)
    as (s1 & Hloop & T1 & Hfl); try done.
  { by intros x ?%elem_of_nil. }
  { by intros x ?%elem_of_nil. }
  assert (get c s1 = get c s) as Hc1.
  { apply (torn_rest _ _ _ _ T1). by intros ?%live_forest_nodes. }
  cbn [length] in Hloop.
  destruct (unload_quiet_node P fuel c s s1 Hl Hloop) as (s' & Hrun & Hlog & Hp & _ & Hpr & Hfr);
    [by rewrite Hc1|done|].
  exists s'. split; [exact Hrun|]. split.
  { rewrite Hlog, (torn_log _ _ _ _ T1), (torn_plugs _ _ _ _ T1), Hc1.
    by rewrite <- !app_assoc. }
  split; [exact Hpr|].
  intros x Hx. destruct (decide (x = c)) as [->|Hne]; [apply Hpr|].
  rewrite Hfr by done. apply Hfl. by right.
Qed.

Lemma X7_repeated_child_unloaded_once_witness :
  _children (get 0 Doubled.s) = [1; 1; 2]
  ∧ ∃ s', unload Family.prog 2 0 Doubled.s = Ret s'
    ∧ log s' = [EvOnunload 1; EvNote "bye"; EvOnunload 2; EvNote "bye";
                EvOnunload 0; EvNote "bye"].
Proof.
  split; [reflexivity|].
  destruct (X7_repeated_child_unloaded_once Family.prog 1 0
              [Family.leaf 1; Family.leaf 2] Doubled.s)
    as (s' & Hrun & Hlog & _).
  - reflexivity.
  - reflexivity.
  - repeat (constructor; try reflexivity).
  - apply (bool_decide_unpack _). vm_compute. reflexivity.
  - repeat constructor.
  - repeat constructor.
  - reflexivity.
  - exists s'. split; [exact Hrun|]. rewrite Hlog. reflexivity.
Defined.

(** ** A teardown hook that throws *)

(** The store in which [unload] throws when the hook of a loaded node over
    quiet children throws: [s1] is the store after the children's loop. *)
Lemma unload_hook_raise P fuel c kids qs err rest s :
  _loaded (get c s) = true →
  _children (get c s) = map root kids →
  Forall (fun cb => quiet cb = true) (_disposables (get c s)) →
  onunload_of P c = qs ++ Raise err :: rest →
  quiet qs = true →
  Forall (shape P s) kids →
  NoDup (c :: (kids ≫= nodes)) →
  Forall (fun k => height k ≤ fuel) kids →
  ∃ s1 s',
    torn kids (kids ≫= trace P (plugs s)) s s1
    ∧ call P (S (S fuel)) (CallUnload c) s = Exn err s'
    ∧ log s' = log s1
        ++ cancel_trace (_intervals (get c s))
        ++ (_disposables (get c s) ≫= dispose_trace (plugs s))
        ++ EvOnunload c :: effects (plugs s) qs
    ∧ plugs s' = plugs s
    ∧ get c s' = set_disposables [] (set_intervals [] (fresh_children (get c s)))
    ∧ ∀ y, y ≠ c → get y s' = get y s1.
Proof.
  intros Hl Hch Hq Hoff Hqs Hsh Hnd Hh.
  apply NoDup_cons in Hnd as [Hc Hnd].
  destruct (unload_through_timers P (S fuel) c kids (_intervals (get c s))
              (_disposables (get c s)) s) as (s1 & T1 & Hc1 & Hrun); try done.
  { rewrite Forall_forall. intros k _. apply unload_tree. }
  { eapply Forall_impl; [exact Hh|]. cbn. intros; lia. }
  pose proof (torn_plugs _ _ _ _ T1) as Hp1.
  exists s1. eexists. split; [exact T1|]. split.
  { change (call P (S (S fuel)) (CallUnload c) s)
      with (Component.unload P (call P (S fuel)) c s).
    rewrite Hrun. cbn zeta.
    rewrite forEach_dispose_quiet by done. cbn [bind].
    unfold Component.onunload. rewrite Hoff, run_raise by done. cbn [bind]. reflexivity. }
  split; [autorewrite with store; rewrite Hp1; by rewrite <- !app_assoc|].
  split; [by autorewrite with store|]. split.
  - autorewrite with store. by rewrite Hc1.
  - intros y Hy.
    by rewrite get_records, get_record, get_upd_ne, get_records, get_upd_ne, get_records,
      get_upd_ne by done.
Qed.



(** X9: a throw in the teardown hook of a child stops the parent's cascade
    where it is.  The children before it are torn down and the failing
    child has done all but clear its flag: its children, timers and
    disposables are empty and it is still loaded.  The parent itself is
    untouched:
    it is still loaded, still lists all its children, and none of its
    timers or disposables has been cancelled or run. *)
Theorem X9_throwing_child_aborts_cascade P fuel p pre x kkids qs err rest post s :
  _loaded (get p s) = true →
  _children (get p s) = map root pre ++ x :: post →
  Forall (shape P s) pre →
  Forall (fun k => height k ≤ S fuel) pre →
  _loaded (get x s) = true →
  _children (get x s) = map root kkids →
  Forall (fun cb => quiet cb = true) (_disposables (get x s)) →
  Forall (shape P s) kkids →
  Forall (fun k => height k ≤ fuel) kkids →
  onunload_of P x = qs ++ Raise err :: rest →
  quiet qs = true →
  NoDup (p :: (pre ≫= nodes) ++ x :: (kkids ≫= nodes)) →
  ∃ s',
    unload P (S (S fuel)) p s = Exn err s'
    ∧ log s' = log s
        ++ (pre ≫= trace P (plugs s))
        ++ (kkids ≫= trace P (plugs s))
        ++ cancel_trace (_intervals (get x s))
        ++ (_disposables (get x s) ≫= dispose_trace (plugs s))
        ++ EvOnunload x :: effects (plugs s) qs
    ∧ get p s' = get p s
    ∧ _loaded (get x s') = true
    ∧ _children (get x s') = []
    ∧ _intervals (get x s') = []
    ∧ _disposables (get x s') = [].
Proof.
  intros Hl Hch Hpre Hhpre Hlx Hchx Hqx Hkk Hhkk Hoff Hqs Hnd.
  apply NoDup_cons in Hnd as [Hp Hnd].
  apply not_elem_of_app in Hp as [Hp1 Hp2]. apply not_elem_of_cons in Hp2 as [Hpx Hp2].
  apply NoDup_app in Hnd as (Nd1 & Dis & Nd2).
  set (g := length (_children_retired (get p s))).
  destruct (unload_kids_at P (S (S fuel)) p g pre) with (n := 0) (s := s)
    as (s1 & Hloop & T1); try done.
  { rewrite Forall_forall. intros k _. apply unload_tree. }
  { intros i k Hi. rewrite Hch. cbn [Nat.add].
    rewrite lookup_app_l by (rewrite length_map; by eapply lookup_lt_Some).
    change (map root pre) with (root <$> pre). by rewrite list_lookup_fmap, Hi. }
  { eapply Forall_impl; [exact Hhpre|]. cbn. intros; lia. }
  assert (∀ y, y ∉ pre ≫= nodes → get y s1 = get y s) as Hfr.
  { intros y Hy. apply (torn_rest _ _ _ _ T1). by intros ?%live_forest_nodes. }
  assert (x ∉ pre ≫= nodes) as Hx1.
  { intros Hin. apply (Dis x Hin). apply list_elem_of_here. }
  pose proof (torn_plugs _ _ _ _ T1) as Hp1'.
  destruct (unload_hook_raise P fuel x kkids qs err rest s1)
    as (s2 & s' & T2 & Hrun & Hlog & _ & Hg & Hfr2).
  { by rewrite Hfr. }
  { by rewrite Hfr. }
  { by rewrite Hfr. }
  { done. }
  { done. }
  { rewrite Forall_forall in Hkk. rewrite Forall_forall. intros k Hk.
    eapply shape_frame; [|by apply Hkk].
    intros y Hy. apply Hfr. intros Hin. apply (Dis y Hin).
    apply list_elem_of_further. apply list_elem_of_bind. eauto. }
  { done. }
  { done. }
  exists s'. split; [|split; [|split; [|split; [|split; [|split]]]]].
  - change (unload P (S (S fuel)) p s)
      with (Component.unload P (call P (S (S fuel))) p s).
    unfold Component.unload. rewrite Hl. cbn [negb]. fold g.
    rewrite Hch, length_app, length_map. cbn [length].
    rewrite forEach_live_split, Hloop. cbn [bind Nat.add forEach_live].
    assert (children_array p g s1 !! length pre = Some x) as ->.
    { unfold children_array. rewrite (Hfr p Hp1), decide_True by done.
      rewrite Hch. apply list_lookup_middle. by rewrite length_map. }
    by rewrite Hrun.
  - rewrite Hlog, (torn_log _ _ _ _ T2), (torn_log _ _ _ _ T1), !(Hfr x Hx1), Hp1'.
    by rewrite <- !app_assoc.
  - rewrite Hfr2 by done.
    rewrite (torn_rest _ _ _ _ T2) by (by intros ?%live_forest_nodes).
    by apply Hfr.
  - rewrite Hg, (Hfr x Hx1). done.
  - by rewrite Hg.
  - by rewrite Hg.
  - by rewrite Hg.
Qed.

Lemma X9_throwing_child_aborts_cascade_witness :
  ∃ s', unload Stubborn.prog 2 0 Family.s = Exn "teardown failed" s'
    ∧ log s' = [EvOnunload 1; EvNote "bye"; EvOnunload 2; EvNote "closing"]
    ∧ get 0 s' = get 0 Family.s.
Proof.
  destruct (X9_throwing_child_aborts_cascade Stubborn.prog 0 0 [Family.leaf 1] 2 []
              [Note "closing"] "teardown failed" [] [3] Family.s)
    as (s' & Hrun & Hlog & Hp & _).
  - reflexivity.
  - reflexivity.
  - repeat (constructor; try reflexivity).
  - repeat constructor.
  - reflexivity.
  - reflexivity.
  - constructor.
  - constructor.
  - constructor.
  - reflexivity.
  - reflexivity.
  - apply (bool_decide_unpack _). vm_compute. reflexivity.
  - exists s'. split; [exact Hrun|]. split; [rewrite Hlog; reflexivity|exact Hp].
Defined.

(** ** A plugin that overrides [onunload] *)

Lemma quiet_notes tags : quiet (map Note tags) = true.
Proof. by induction tags. Qed.

Lemma effects_notes pl tags : effects pl (map Note tags) = map EvNote tags.
Proof. unfold effects. induction tags as [|t tags IH]; [done|]. cbn. by rewrite <- IH. Qed.

(** X10: the cleanup of [registeredCommands] lives in [Plugin.onunload]
    alone.  A plugin class that overrides [onunload] without calling the
    inherited one (the README's example does) registers its command on
    [load()] and never unregisters it: [unload()] records the hook's own
    effects and no [commands.unregister], and the id stays listed. *)
Theorem X10_overridden_onunload_leaks_commands P fuel p cmd tags s :
  pristine (get p s) →
  onload_of P p = [CallAddCommand p cmd] →
  onunload_of P p = map Note tags →
  ∃ s1 s2,
    load P (S fuel) p s = Ret s1
    ∧ unload P (S fuel) p s1 = Ret s2
    ∧ log s2 = log s ++ [EvOnload p; EvHost (commands_register cmd); EvOnunload p]
                     ++ map EvNote tags
    ∧ (∀ id, EvHost (commands_unregister id)
             ∉ [EvOnload p; EvHost (commands_register cmd); EvOnunload p] ++ map EvNote tags)
    ∧ registeredCommands (getp p s2) = registeredCommands (getp p s) ++ [cmd_id cmd]
    ∧ pristine (get p s2).
Proof.
  intros (Hl & Hch & Hti & Hdi) Hon Hoff.
  set (s1 := Plugin.addCommand p cmd (record (EvOnload p) (upd p (set_loaded true) s))).
  assert (load P (S fuel) p s = Ret s1) as Hload.
  { change (load P (S fuel) p s) with (Component.load P (call P (S fuel)) p s).
    unfold Component.load. rewrite Hl. unfold Component.onload. rewrite Hon. done. }
  assert (get p s1 = set_loaded true (get p s)) as Hg1.
  { unfold s1, Plugin.addCommand. by autorewrite with store. }
  destruct (unload_tree P (Node p true [] [] []) s1 (S (S fuel))) as (s2 & Hun & T).
  { constructor; rewrite ?Hg1; cbn; try done. rewrite Hoff. apply quiet_notes. }
  { cbn. apply NoDup_singleton. }
  { cbn. lia. }
  exists s1, s2. split; [done|]. split; [exact Hun|].
  destruct T as [L2 P2 D2 V2 _].
  split; [|split; [|split]].
  - rewrite L2. cbn [trace mbind list_bind cancel_trace map app].
    rewrite Hoff, effects_notes.
    unfold s1, Plugin.addCommand. autorewrite with store.
    by rewrite <- !app_assoc.
  - intros id Hin. apply elem_of_app in Hin as [Hin|Hin].
    + repeat (apply elem_of_cons in Hin as [Hin|Hin]; [discriminate Hin|]).
      by apply elem_of_nil in Hin.
    + apply list_elem_of_In, in_map_iff in Hin as (t & Ht & _). discriminate Ht.
  - unfold getp. rewrite P2. fold (getp p s1).
    unfold s1, Plugin.addCommand. by rewrite getp_updp_eq.
  - apply V2. cbn. apply list_elem_of_here.
Qed.

Lemma X10_overridden_onunload_leaks_commands_witness :
  ∃ s1 s2,
    load Readme.prog 1 0 initial = Ret s1
    ∧ unload Readme.prog 1 0 s1 = Ret s2
    ∧ log s2 = [EvOnload 0; EvHost (commands_register Greeter.cmd); EvOnunload 0;
                EvNote "Plugin unloaded!"]
    ∧ registeredCommands (getp 0 s2) = ["my-command"].
Proof.
  destruct (X10_overridden_onunload_leaks_commands Readme.prog 0 0 Greeter.cmd
              ["Plugin unloaded!"] initial)
    as (s1 & s2 & H1 & H2 & L2 & _ & C2 & _).
  - repeat split; reflexivity.
  - reflexivity.
  - reflexivity.
  - exists s1, s2. split; [exact H1|]. split; [exact H2|]. split; [exact L2|exact C2].
Defined.

(** ** A child that removes itself while the parent unloads *)

Lemma lookup_map_root (ts : list tree) i k :
  ts !! i = Some k → map root ts !! i = Some (root k).
Proof.
  revert i. induction ts as [|t ts IH]; intros [|i]; cbn; try done.
  - by intros [= ->].
  - apply IH.
Qed.

(** The [unload()] of a loaded leaf [x] with nothing queued, whose teardown
    hook calls [c.removeChild(x)] on the parent [c] that lists it first. *)
Lemma unload_self_removing P fuel c x cs s :
  x ≠ c →
  _children (get c s) = x :: cs →
  _loaded (get x s) = true →
  _children (get x s) = [] →
  _intervals (get x s) = [] →
  _disposables (get x s) = [] →
  onunload_of P x = [CallRemoveChild c x] →
  ∃ sx, call P (S (S fuel)) (CallUnload x) s = Ret sx
    ∧ log sx = log s ++ [EvOnunload x]
    ∧ plugs sx = plugs s
    ∧ get c sx = set_children cs (get c s)
    ∧ _loaded (get x sx) = false
    ∧ ∀ z, z ≠ c → z ≠ x → get z sx = get z s.
Proof.
  intros Hxc Hch Hl Hchx Hti Hdi Hoff.
  change (call P (S (S fuel)) (CallUnload x) s)
    with (Component.unload P (call P (S fuel)) x s).
  rewrite (unload_after_children P _ x s s); [|done|by rewrite Hchx].
  cbn zeta. rewrite Hti, Hdi. cbn [forEach bind cancel_trace map].
  unfold Component.onunload. rewrite Hoff. cbn [Component.run call dispatch bind].
  set (s0 := record (EvOnunload x) _).
  assert (get c s0 = get c s) as Hc0.
  { unfold s0. rewrite get_record, !get_upd_ne, get_records, get_upd_ne by done. done. }
  unfold Component.removeChild. rewrite Hc0, Hch. cbn [indexOf].
  rewrite decide_True by done. cbn [snd].
  eexists. split; [reflexivity|].
  split; [unfold s0; autorewrite with store; by rewrite app_nil_r|].
  split; [unfold s0; by autorewrite with store|]. split; [|split].
  - rewrite get_upd_ne, get_upd_eq, Hc0, Hch by done. done.
  - by rewrite get_upd_eq.
  - intros z Hzc Hzx. rewrite !get_upd_ne by done.
    unfold s0. rewrite get_record, !get_upd_ne, get_records, get_upd_ne by done. done.
Qed.

(** X11: [forEach] walks the children array itself.  When the first child
    takes itself out of the parent during the cascade, the others move down
    one place and the child that was second is passed over: the teardown of
    the parent returns, clears the children, and leaves that child exactly
    as it was, loaded if it was loaded. *)
Theorem X11_self_removing_child_hides_next P fuel c x y rest s :
  _loaded (get c s) = true →
  _children (get c s) = x :: y :: map root rest →
  Forall (fun cb => quiet cb = true) (_disposables (get c s)) →
  quiet (onunload_of P c) = true →
  _loaded (get x s) = true →
  _children (get x s) = [] →
  _intervals (get x s) = [] →
  _disposables (get x s) = [] →
  onunload_of P x = [CallRemoveChild c x] →
  Forall (shape P s) rest →
  Forall (fun k => height k ≤ S fuel) rest →
  NoDup (c :: x :: y :: (rest ≫= nodes)) →
  ∃ s', unload P (S (S fuel)) c s = Ret s'
    ∧ log s' = log s
        ++ [EvOnunload x]
        ++ (rest ≫= trace P (plugs s))
        ++ cancel_trace (_intervals (get c s))
        ++ (_disposables (get c s) ≫= dispose_trace (plugs s))
        ++ EvOnunload c :: effects (plugs s) (onunload_of P c)
    ∧ get y s' = get y s
    ∧ _children (get c s') = []
    ∧ _loaded (get c s') = false
    ∧ _loaded (get x s') = false.
Proof.
  intros Hl Hch Hq Hqh Hlx Hchx Htix Hdix Hoff Hsh Hh Hnd.
  apply NoDup_cons in Hnd as [Hc Hnd]. apply NoDup_cons in Hnd as [Hx Hnd].
  apply NoDup_cons in Hnd as [Hy Hnd].
  apply not_elem_of_cons in Hc as [Hcx Hc]. apply not_elem_of_cons in Hc as [Hcy Hc].
  apply not_elem_of_cons in Hx as [Hxy Hx].
  destruct (unload_self_removing P fuel c x (y :: map root rest) s)
    as (sx & Hrunx & Lx & Px & Gc & Glx & Frx); try done.
  set (g := length (_children_retired (get c s))).
  destruct (unload_kids_at P (S (S fuel)) c g rest) with (n := 1) (s := sx)
    as (s2 & Hloop & T2); try done.
  { rewrite Forall_forall. intros k _. apply unload_tree. }
  { intros i k Hi. rewrite Gc. cbn. by apply lookup_map_root. }
  { by rewrite Gc. }
  { rewrite Forall_forall in Hsh. rewrite Forall_forall. intros k Hk.
    eapply shape_frame; [|by apply Hsh].
    intros z Hz. assert (z ∈ rest ≫= nodes) by (apply list_elem_of_bind; eauto).
    apply Frx; intros ->; done. }
  { eapply Forall_impl; [exact Hh|]. cbn. intros; lia. }
  assert (get c s2 = get c sx) as Hc2.
  { apply (torn_rest _ _ _ _ T2). by intros ?%live_forest_nodes. }
  assert (forEach_live (children_array c g)
            (fun child => call P (S (S fuel)) (CallUnload child))
            (length (_children (get c s))) 0 s = Ret s2) as Hall.
  { rewrite Hch. cbn [length]. rewrite length_map.
    replace (S (S (length rest))) with (1 + (length rest + 1)) by lia.
    rewrite forEach_live_split. cbn [forEach_live Nat.add].
    assert (children_array c g s !! 0 = Some x) as ->.
    { unfold children_array. rewrite decide_True by done. by rewrite Hch. }
    rewrite Hrunx. cbn [bind].
    rewrite forEach_live_split, Hloop. cbn [bind forEach_live].
    assert (children_array c g s2 !! (1 + length rest) = None) as ->; [|done].
    unfold children_array. rewrite Hc2, Gc. cbn [set_children _children_retired _children].
    rewrite decide_True by done. apply lookup_ge_None. cbn. rewrite length_map. lia. }
  destruct (unload_quiet_node P (S fuel) c s s2 Hl Hall) as (s' & Hrun & Hlog & _ & _ & Hpr & Hfr).
  { by rewrite Hc2, Gc. }
  { done. }
  exists s'. split; [exact Hrun|]. split.
  { rewrite Hlog, (torn_log _ _ _ _ T2), (torn_plugs _ _ _ _ T2), Lx, Px, Hc2, Gc.
    cbn [set_children _intervals _disposables]. by rewrite <- !app_assoc. }
  split.
  { rewrite Hfr by done.
    rewrite (torn_rest _ _ _ _ T2) by (by intros ?%live_forest_nodes).
    by apply Frx. }
  split; [apply Hpr|]. split; [apply Hpr|].
  rewrite Hfr by done.
  rewrite (torn_rest _ _ _ _ T2) by (by intros ?%live_forest_nodes). done.
Qed.

Lemma X11_self_removing_child_hides_next_witness :
  ∃ s', unload Selfish.prog 2 0 Family.s = Ret s'
    ∧ log s' = [EvOnunload 1; EvOnunload 3; EvHost (window_clearInterval 7);
                EvDispose Family.d1; EvNote "d1"; EvDispose Family.d2; EvNote "d2";
                EvOnunload 0]
    ∧ _loaded (get 2 s') = true
    ∧ _children (get 0 s') = [].
Proof.
  destruct (X11_self_removing_child_hides_next Selfish.prog 0 0 1 2 [Family.leaf 3] Family.s)
    as (s' & Hrun & Hlog & Hy & Hch & _).
  - reflexivity.
  - reflexivity.
  - repeat constructor.
  - reflexivity.
  - reflexivity.
  - reflexivity.
  - reflexivity.
  - reflexivity.
  - reflexivity.
  - repeat (constructor; try reflexivity).
  - repeat constructor.
  - apply (bool_decide_unpack _). vm_compute. reflexivity.
  - exists s'. split; [exact Hrun|]. split; [rewrite Hlog; reflexivity|].
    split; [rewrite Hy; reflexivity|exact Hch].
Defined.

(** ** Settings on an orderly file system *)

Lemma disk_getSettingsPath parse stringify P p ws :
  Settings.getSettingsPath (Disk.h parse stringify) P p ws
  = (Fulfilled (Disk.settings_path P p), ws).
Proof. by destruct ws. Qed.

Lemma disk_ensureSettingsDir parse stringify P p w s :
  ∃ w', Settings.ensureSettingsDir (Disk.h parse stringify) P p (w, s) = (Fulfilled tt, (w', s))
        ∧ Disk.files w' = Disk.files w.
Proof.
  unfold Settings.ensureSettingsDir, Async.try_catch, Async.bind, Async.await, Async.ret.
  cbn [Disk.h import_path import_fs appConfigDir join exists_ mkdir fst snd].
  repeat (match goal with |- context [negb (bool_decide ?Q)] =>
            destruct (bool_decide Q); cbn [negb fst snd Disk.files Disk.dirs] end);
    eexists; (split; [reflexivity|done]).
Qed.

(** X12: on an orderly file system, with a [JSON.parse] that reads back what
    [JSON.stringify] wrote for [data], [saveData(data)] is fulfilled, logs
    nothing, writes the text to [{config}/plugins/{id}/settings.json] and
    keeps [data] in [settingsData]; every later [loadData()], from whatever
    store, is fulfilled with [data], leaves the files alone and sets
    [settingsData] to [data]. *)
Theorem X12_saveData_loadData_roundtrip parse stringify P p data text w s :
  stringify data = Fulfilled text →
  parse text = Fulfilled data →
  ∃ w1 s1,
    Settings.saveData (Disk.h parse stringify) P p data (w, s) = (Fulfilled tt, (w1, s1))
    ∧ Disk.files w1 = <[Disk.settings_path P p := text]> (Disk.files w)
    ∧ s1 = updp p (set_settings data) s
    ∧ ∀ s2, Settings.loadData (Disk.h parse stringify) P p (w1, s2)
            = (Fulfilled data, (w1, updp p (set_settings data) s2)).
Proof.
  intros Hstr Hparse.
  destruct (disk_ensureSettingsDir parse stringify P p w s) as (w' & Hens & Hfiles).
  eexists (Disk.mk (<[Disk.settings_path P p := text]> (Disk.files w')) (Disk.dirs w')), _.
  split; [|split; [|split]].
  - unfold Settings.saveData, Async.try_catch, Settings.saveData_try.
    unfold Async.bind at 1. unfold Async.await at 1.
    cbn [import_fs Disk.h fst snd].
    unfold Async.bind at 1. rewrite Hens.
    unfold Async.bind at 1. rewrite disk_getSettingsPath.
    unfold Async.bind, Async.modify, Async.eval, Async.await.
    cbn [fst snd JSON_stringify writeTextFile Disk.h]. rewrite Hstr. reflexivity.
  - cbn. by rewrite Hfiles.
  - reflexivity.
  - intros s2.
    unfold Settings.loadData, Async.try_catch, Settings.loadData_try.
    unfold Async.bind at 1. unfold Async.await at 1.
    cbn [import_fs Disk.h fst snd].
    unfold Async.bind at 1. rewrite disk_getSettingsPath.
    unfold Async.bind at 1. unfold Async.await at 1.
    cbn [exists_ Disk.h fst snd Disk.files Disk.dirs].
    rewrite bool_decide_eq_true_2 by (right; rewrite lookup_insert_eq; eauto).
    unfold Async.bind, Async.await, Async.eval, Async.modify, Async.read.
    cbn [readTextFile JSON_parse Disk.h fst snd Disk.files].
    rewrite lookup_insert_eq. cbn [fst snd]. rewrite Hparse.
    by rewrite getp_updp_eq.
Qed.

Lemma X12_saveData_loadData_roundtrip_witness :
  let h := Disk.h (fun text => if String.eqb text "{}" then Fulfilled (JObject [])
                               else Rejected "SyntaxError")
                  (fun _ => Fulfilled "{}") in
  ∃ w1 s1,
    Settings.saveData h Greeter.prog 0 (JObject []) (Disk.empty, initial)
    = (Fulfilled tt, (w1, s1))
    ∧ Settings.loadData h Greeter.prog 0 (w1, initial)
      = (Fulfilled (JObject []), (w1, updp 0 (set_settings (JObject [])) initial)).
Proof.
  cbn zeta.
  destruct (X12_saveData_loadData_roundtrip
              (fun text => if String.eqb text "{}" then Fulfilled (JObject [])
                           else Rejected "SyntaxError")
              (fun _ => Fulfilled "{}") Greeter.prog 0 (JObject []) "{}" Disk.empty initial)
    as (w1 & s1 & Hsave & _ & _ & Hload); [reflexivity|reflexivity|].
  exists w1, s1. split; [exact Hsave|apply Hload].
Defined.

Lemma getp_record p e s : getp p (record e s) = getp p s.
Proof. reflexivity. Qed.

(** X13: [saveData] stores [data] in [settingsData] before it writes.  When
    the directory step and the path are through and then [JSON.stringify]
    throws or the write is rejected, the promise is still fulfilled, the
    failure is logged, and [settingsData] holds [data] although the file
    does not. *)
Theorem X13_saveData_keeps_data_when_write_fails {W} (h : host W) P p data
    ws w1 ws2 path ws3 e :
  import_fs h ws.1 = (Fulfilled tt, w1) →
  Settings.ensureSettingsDir h P p (w1, ws.2) = (Fulfilled tt, ws2) →
  Settings.getSettingsPath h P p ws2 = (Fulfilled path, ws3) →
  JSON_stringify h data = Rejected e
  ∨ (∃ text w4, JSON_stringify h data = Fulfilled text
                ∧ writeTextFile h path text ws3.1 = (Rejected e, w4)) →
  ∃ ws', Settings.saveData h P p data ws = (Fulfilled tt, ws')
    ∧ settingsData (getp p ws'.2) = data
    ∧ log ws'.2 = log ws3.2 ++ [EvHost (console_error
                     ("Failed to save settings for " +:+ manifest_id P p +:+ ":") e)].
Proof.
  intros Himp Hens Hpath Hfail.
  unfold Settings.saveData, Async.try_catch, Settings.saveData_try.
  unfold Async.bind at 1. unfold Async.await at 1. rewrite Himp. cbn [fst snd].
  unfold Async.bind at 1. rewrite Hens.
  unfold Async.bind at 1. rewrite Hpath.
  unfold Async.bind, Async.modify, Async.eval, Async.await. cbn [fst snd].
  destruct Hfail as [Hstr|(text & w4 & Hstr & Hwrite)]; rewrite Hstr.
  - eexists. split; [reflexivity|]. cbn [snd Settings.log_error Async.modify].
    split; [|done]. by rewrite getp_record, getp_updp_eq.
  - rewrite Hwrite. eexists. split; [reflexivity|]. cbn [snd].
    split; [|done]. by rewrite getp_record, getp_updp_eq.
Qed.

Lemma X13_saveData_keeps_data_when_write_fails_witness :
  ∃ ws', Settings.saveData ReadOnly.h Greeter.prog 0 (JString "new") (Disk.empty, initial)
         = (Fulfilled tt, ws')
    ∧ settingsData (getp 0 ws'.2) = JString "new".
Proof.
  destruct (X13_saveData_keeps_data_when_write_fails ReadOnly.h Greeter.prog 0 (JString "new")
              (Disk.empty, initial) Disk.empty
              (Disk.empty, record (EvHost (console_error
                 "Failed to create settings directory for my-plugin:" "EROFS")) initial)
              "/config/plugins/my-plugin/settings.json"
              (Disk.empty, record (EvHost (console_error
                 "Failed to create settings directory for my-plugin:" "EROFS")) initial)
              "EROFS")
    as (ws' & Hrun & Hdata & _).
  - reflexivity.
  - reflexivity.
  - reflexivity.
  - right. exists "{}", Disk.empty. split; reflexivity.
  - exists ws'. split; [exact Hrun|exact Hdata].
Defined.

(** ** Ribbon icons and status bar items *)

(** X14: [addRibbonIcon] and [addStatusBarItem] always create and return a
    new element, different from the one of the call before.  Only when the
    container was found do they append it and queue its removal, which the
    next [unload()] of the plugin runs after the disposables queued earlier.
    When the container is missing the element comes back detached and
    nothing is queued: no component changes and nothing will remove it. *)
Theorem X14_ui_items_need_their_container P fuel p kids timers disps icon title callback s :
  shape P s (Node p true kids timers disps) →
  NoDup (nodes (Node p true kids timers disps)) →
  height (Node p true kids timers disps) ≤ fuel →
  (∀ container,
     let r := Ui.addRibbonIcon p (Some container) icon title callback s in
     let r' := Ui.addStatusBarItem p (Some container) r.2 in
     Ui.el r.1.1 = dom_next s
     ∧ r.1.2 = Some container
     ∧ r'.1.2 = Some container
     ∧ Ui.el r'.1.1 ≠ Ui.el r.1.1
     ∧ ∃ s', unload P fuel p r'.2 = Ret s'
         ∧ log s' = log s
             ++ (kids ≫= trace P (plugs s))
             ++ cancel_trace timers
             ++ (disps ≫= dispose_trace (plugs s))
             ++ [EvDispose [Host (element_remove (Ui.el r.1.1))];
                 EvHost (element_remove (Ui.el r.1.1));
                 EvDispose [Host (element_remove (Ui.el r'.1.1))];
                 EvHost (element_remove (Ui.el r'.1.1))]
             ++ EvOnunload p :: effects (plugs s) (onunload_of P p))
  ∧ (let r := Ui.addRibbonIcon p None icon title callback s in
     let r' := Ui.addStatusBarItem p None r.2 in
     r.1.2 = None ∧ r'.1.2 = None
     ∧ Ui.el r'.1.1 ≠ Ui.el r.1.1
     ∧ comps r'.2 = comps s ∧ plugs r'.2 = plugs s ∧ log r'.2 = log s
     ∧ ∃ s', unload P fuel p r'.2 = Ret s'
         ∧ log s' = log s
             ++ (kids ≫= trace P (plugs s))
             ++ cancel_trace timers
             ++ (disps ≫= dispose_trace (plugs s))
             ++ EvOnunload p :: effects (plugs s) (onunload_of P p)).
Proof.
  intros Hsh Hnd Hh.
  pose proof Hnd as Hnd'. cbn [nodes] in Hnd'. apply NoDup_cons in Hnd' as [Hc _].
  inversion Hsh as [? ? ? ? ? Hl Hch Hti Hdi Hq Hqh Hkids]; subst.
  split.
  - intros container. cbn zeta.
    unfold Ui.addRibbonIcon, Ui.addStatusBarItem, Ui.createElement. cbn [fst snd Ui.el].
    split; [done|]. split; [done|]. split; [done|].
    split; [unfold Component.register; cbn; lia|].
    set (s2 := Component.register p _ (mkState _ _ _ _)).
    set (e1 := dom_next s). set (e2 := dom_next _).
    assert (get p s2 = set_disposables
              (_disposables (get p s) ++ [[Host (element_remove e1)]; [Host (element_remove e2)]])
              (get p s)) as Hg.
    { unfold s2, Component.register. rewrite get_upd_eq.
      match goal with |- context [get p (mkState (comps ?a) ?b ?c ?d)] =>
        change (get p (mkState (comps a) b c d)) with (get p a) end.
      rewrite get_upd_eq.
      match goal with |- context [get p (mkState (comps ?a) ?b ?c ?d)] =>
        change (get p (mkState (comps a) b c d)) with (get p a) end.
      cbn. by rewrite <- app_assoc. }
    destruct (unload_tree P (Node p true kids (_intervals (get p s))
                (_disposables (get p s)
                 ++ [[Host (element_remove e1)]; [Host (element_remove e2)]])) s2 (S fuel))
      as (s' & Hrun & T).
    { eapply shape_root_update; [exact Hsh|done| |by rewrite Hg..|].
      - intros y Hy. unfold s2, Component.register. rewrite get_upd_ne by done.
        match goal with |- context [get y (mkState (comps ?a) ?b ?c ?d)] =>
          change (get y (mkState (comps a) b c d)) with (get y a) end.
        rewrite get_upd_ne by done. done.
      - apply Forall_app. split; [done|]. by repeat constructor. }
    { exact Hnd. }
    { cbn [height] in *. lia. }
    exists s'. split; [exact Hrun|]. rewrite (torn_log _ _ _ _ T).
    cbn [trace]. rewrite bind_app. cbn [mbind list_bind]. rewrite app_nil_r.
    change (log s2) with (log s). change (plugs s2) with (plugs s).
    unfold dispose_trace at 3 4. unfold effects. cbn [mbind list_bind effect app].
    by rewrite <- !app_assoc.
  - cbn zeta. unfold Ui.addRibbonIcon, Ui.addStatusBarItem, Ui.createElement.
    cbn [fst snd Ui.el comps plugs log dom_next].
    split; [done|]. split; [done|]. split; [lia|].
    split; [done|]. split; [done|]. split; [done|].
    set (s0 := mkState (comps s) (plugs s) (S (S (dom_next s))) (log s)).
    assert (shape P s0 (Node p true kids (_intervals (get p s)) (_disposables (get p s))))
      as Hsh0 by (eapply shape_frame; [|exact Hsh]; done).
    destruct (unload_tree P _ s0 (S fuel) Hsh0 Hnd) as (s' & Hrun & T); [lia|].
    exists s'. split; [exact Hrun|]. by rewrite (torn_log _ _ _ _ T).
Qed.

Lemma X14_ui_items_need_their_container_witness :
  ∃ s', unload Family.prog 2 0
          (Ui.addStatusBarItem 0 (Some 100)
             (Ui.addRibbonIcon 0 (Some 100) "star" "Star" 0 Family.s).2).2 = Ret s'
    ∧ log s' = [EvOnunload 1; EvNote "bye"; EvOnunload 2; EvNote "bye";
                EvOnunload 3; EvNote "bye";
                EvHost (window_clearInterval 7);
                EvDispose Family.d1; EvNote "d1"; EvDispose Family.d2; EvNote "d2";
                EvDispose [Host (element_remove 0)]; EvHost (element_remove 0);
                EvDispose [Host (element_remove 1)]; EvHost (element_remove 1);
                EvOnunload 0; EvNote "bye"].
Proof.
  destruct (X14_ui_items_need_their_container Family.prog 2 0
              [Family.leaf 1; Family.leaf 2; Family.leaf 3] [7%Z] [Family.d1; Family.d2]
              "star" "Star" 0 Family.s family_shape family_NoDup) as [Hsome _].
  - vm_compute. lia.
  - destruct (Hsome 100) as (_ & _ & _ & _ & s' & Hrun & Hlog).
    exists s'. split; [exact Hrun|]. rewrite Hlog. reflexivity.
Defined.

(** ** The teardown of a plugin *)

(** X15: the registrations of a plugin that inherits [onunload] are undone
    in two rounds.  After [registerView], [registerExtensions], [loadCss],
    [addSettingTab], [addCommand] and [registerEvent] on a loaded plugin,
    [unload()] first runs the four queued callbacks, in the order of the
    registrations and after the disposables queued before, and only then,
    in the teardown hook, unregisters the commands and detaches the event
    references. *)
Theorem X15_plugin_teardown_order P fuel p kids timers disps
    type extensions viewType css tab command ref s :
  shape P s (Node p true kids timers disps) →
  NoDup (nodes (Node p true kids timers disps)) →
  height (Node p true kids timers disps) ≤ fuel →
  onunload_of P p = [CallPluginOnunload p] →
  let s6 :=
    Plugin.registerEvent p ref
      (Plugin.addCommand p command
         (Plugin.addSettingTab P p tab
            (Plugin.loadCss P p css
               (Plugin.registerExtensions p extensions viewType
                  (Plugin.registerView p type s))))) in
  ∃ s', unload P fuel p s6 = Ret s'
    ∧ log s' = log s6
        ++ (kids ≫= trace P (plugs s6))
        ++ cancel_trace timers
        ++ (disps ≫= dispose_trace (plugs s6))
        ++ [EvDispose [Host (workspace_unregisterView type)];
            EvHost (workspace_unregisterView type);
            EvDispose [Host (workspace_unregisterExtensions extensions)];
            EvHost (workspace_unregisterExtensions extensions);
            EvDispose [Host (element_remove (dom_next s))];
            EvHost (element_remove (dom_next s));
            EvDispose [Host (plugins_unregisterSettingsTab (manifest_id P p))];
            EvHost (plugins_unregisterSettingsTab (manifest_id P p))]
        ++ EvOnunload p
           :: map (fun id => EvHost (commands_unregister id))
                (registeredCommands (getp p s) ++ [cmd_id command])
           ++ map (fun r => EvHost (events_off r)) (registeredEvents (getp p s) ++ [ref])
    ∧ pristine (get p s').
Proof.
  intros Hsh Hnd Hh Hoff s6.
  pose proof Hnd as Hnd'. cbn [nodes] in Hnd'. apply NoDup_cons in Hnd' as [Hc _].
  inversion Hsh as [? ? ? ? ? Hl Hch Hti Hdi Hq Hqh Hkids]; subst.
  set (added := [[Host (workspace_unregisterView type)];
                 [Host (workspace_unregisterExtensions extensions)];
                 [Host (element_remove (dom_next s))];
                 [Host (plugins_unregisterSettingsTab (manifest_id P p))]]).
  assert (get p s6 = set_disposables (_disposables (get p s) ++ added) (get p s)) as Hg.
  { unfold s6, Plugin.registerEvent, Plugin.addCommand, Plugin.addSettingTab, Plugin.loadCss,
      Plugin.registerExtensions, Plugin.registerView, Component.register.
    rewrite get_updp, get_updp, get_record, get_upd_eq, get_record, get_upd_eq, get_record.
    match goal with |- context [get p (mkState (comps ?a) ?b ?c ?d)] =>
      change (get p (mkState (comps a) b c d)) with (get p a) end.
    rewrite get_upd_eq, get_record, get_upd_eq, get_record.
    cbn. by rewrite <- !app_assoc. }
  assert (∀ y, y ≠ p → get y s6 = get y s) as Hfr.
  { intros y Hy.
    unfold s6, Plugin.registerEvent, Plugin.addCommand, Plugin.addSettingTab, Plugin.loadCss,
      Plugin.registerExtensions, Plugin.registerView, Component.register.
    rewrite get_updp, get_updp, get_record, get_upd_ne, get_record, get_upd_ne, get_record
      by done.
    match goal with |- context [get y (mkState (comps ?a) ?b ?c ?d)] =>
      change (get y (mkState (comps a) b c d)) with (get y a) end.
    by rewrite get_upd_ne, get_record, get_upd_ne, get_record by done. }
  assert (getp p s6 = set_events (registeredEvents (getp p s) ++ [ref])
                        (set_commands (registeredCommands (getp p s) ++ [cmd_id command])
                           (getp p s))) as Hgp.
  { unfold s6, Plugin.registerEvent, Plugin.addCommand.
    rewrite getp_updp_eq, getp_updp_eq. done. }
  destruct (unload_tree P (Node p true kids (_intervals (get p s))
              (_disposables (get p s) ++ added)) s6 (S fuel)) as (s' & Hrun & T).
  { eapply shape_root_update; [exact Hsh|done|done|by rewrite Hg..|].
    apply Forall_app. split; [done|]. by repeat constructor. }
  { exact Hnd. }
  { cbn [height] in *. lia. }
  exists s'. split; [exact Hrun|]. split.
  - rewrite (torn_log _ _ _ _ T). cbn [trace]. rewrite bind_app, Hoff.
    unfold added. cbn [mbind list_bind]. unfold dispose_trace at 2 3 4 5.
    unfold effects. cbn [mbind list_bind effect app].
    fold (getp p s6). rewrite Hgp. unfold plugin_cleanup.
    cbn [set_events set_commands registeredCommands registeredEvents].
    rewrite !app_nil_r. by rewrite <- !app_assoc.
  - destruct (torn_single _ _ _ _ T) as [V _]. apply V. cbn [live]. apply list_elem_of_here.
Qed.

Lemma X15_plugin_teardown_order_witness :
  ∃ s', unload Greeter.prog 1 0
          (Plugin.registerEvent 0 Greeter.ref
             (Plugin.addCommand 0 Greeter.cmd
                (Plugin.addSettingTab Greeter.prog 0 5
                   (Plugin.loadCss Greeter.prog 0 "body {}"
                      (Plugin.registerExtensions 0 ["md"] "markdown"
                         (Plugin.registerView 0 "markdown" (upd 0 (set_loaded true) initial)))))))
        = Ret s'
    ∧ drop 5 (log s')
      = [EvDispose [Host (workspace_unregisterView "markdown")];
         EvHost (workspace_unregisterView "markdown");
         EvDispose [Host (workspace_unregisterExtensions ["md"])];
         EvHost (workspace_unregisterExtensions ["md"]);
         EvDispose [Host (element_remove 0)]; EvHost (element_remove 0);
         EvDispose [Host (plugins_unregisterSettingsTab "my-plugin")];
         EvHost (plugins_unregisterSettingsTab "my-plugin");
         EvOnunload 0;
         EvHost (commands_unregister "my-command");
         EvHost (events_off Greeter.ref)].
Proof.
  destruct (X15_plugin_teardown_order Greeter.prog 1 0 [] [] [] "markdown" ["md"] "markdown"
              "body {}" 5 Greeter.cmd Greeter.ref (upd 0 (set_loaded true) initial))
    as (s' & Hrun & Hlog & _).
  - repeat (constructor; try reflexivity).
  - apply (bool_decide_unpack _). vm_compute. reflexivity.
  - vm_compute. lia.
  - reflexivity.
  - exists s'. split; [exact Hrun|]. rewrite Hlog. reflexivity.
Defined.

(** ** Registering while the disposables run *)

Lemma run_registering P fuel c sc s :
  forallb (registers_on c) sc = true →
  ∃ s', Component.run (call P (S fuel)) sc s = Ret s'
    ∧ log s' = log s ++ effects (plugs s) sc
    ∧ plugs s' = plugs s
    ∧ get c s' = set_disposables (_disposables (get c s) ++ handed_over sc) (get c s)
    ∧ ∀ y, y ≠ c → get y s' = get y s.
Proof.
  revert s. induction sc as [|a sc IH]; intros s Hq.
  - exists s. split; [done|]. cbn. rewrite !app_nil_r.
    split; [done|]. split; [done|]. split; [by destruct (get c s)|done].
  - apply andb_prop in Hq as [Ha Hq]. cbn [Component.run].
    assert (∃ s1, call P (S fuel) a s = Ret s1
              ∧ log s1 = log s ++ effect (plugs s) a
              ∧ plugs s1 = plugs s
              ∧ get c s1 = set_disposables (_disposables (get c s) ++ handed_over [a]) (get c s)
              ∧ ∀ y, y ≠ c → get y s1 = get y s) as (s1 & -> & L1 & P1 & G1 & F1).
    { assert (∀ o : component, set_disposables (_disposables o ++ []) o = o) as Hsame
        by (intros []; cbn; by rewrite app_nil_r).
      destruct a; try discriminate Ha;
        cbn [call dispatch effect handed_over mbind list_bind app];
        eexists; (split; [reflexivity|]).
      - rewrite get_record, Hsame. done.
      - rewrite get_record, Hsame. done.
      - apply bool_decide_eq_true in Ha as ->. unfold Component.register.
        rewrite get_upd_eq, app_nil_r. repeat split; try done.
        intros y Hy. by rewrite get_upd_ne.
      - rewrite onunload_records, get_records, Hsame. done. }
    cbn [bind]. destruct (IH s1 Hq) as (s' & Hrun & L & Pl & G & F).
    exists s'. split; [exact Hrun|].
    split; [rewrite L, L1, P1; unfold effects; cbn [mbind list_bind]; by rewrite <- app_assoc|].
    split; [congruence|]. split.
    + rewrite G, G1. cbn [set_disposables _disposables _loaded _children _children_retired
                          _intervals].
      unfold handed_over. cbn [mbind list_bind]. rewrite app_nil_r. by rewrite <- app_assoc.
    + intros y Hy. rewrite F by done. by apply F1.
Qed.

Lemma forEach_dispose_registering P fuel c disps : ∀ s,
  Forall (fun cb => forallb (registers_on c) cb = true) disps →
  ∃ s', forEach (Component.dispose (call P (S fuel))) disps s = Ret s'
    ∧ log s' = log s ++ (disps ≫= dispose_trace (plugs s))
    ∧ plugs s' = plugs s
    ∧ get c s' = set_disposables (_disposables (get c s) ++ (disps ≫= handed_over)) (get c s)
    ∧ ∀ y, y ≠ c → get y s' = get y s.
Proof.
  induction disps as [|cb disps IH]; intros s Hd.
  - exists s. split; [done|]. cbn. rewrite !app_nil_r.
    split; [done|]. split; [done|]. split; [by destruct (get c s)|done].
  - inversion Hd as [|? ? Hcb Hrest]; subst. cbn [forEach].
    unfold Component.dispose at 1.
    destruct (run_registering P fuel c cb (record (EvDispose cb) s) Hcb)
      as (s1 & -> & L1 & P1 & G1 & F1).
    cbn [bind]. destruct (IH s1 Hrest) as (s' & Hrun & L & Pl & G & F).
    exists s'. split; [exact Hrun|].
    split.
    { rewrite L, L1, P1. autorewrite with store. cbn [mbind list_bind].
      unfold dispose_trace at 2. by rewrite <- !app_assoc. }
    split; [rewrite Pl, P1; done|]. split.
    + rewrite G, G1. autorewrite with store.
      cbn [set_disposables _disposables _loaded _children _children_retired _intervals
             mbind list_bind].
      by rewrite <- app_assoc.
    + intros y Hy. rewrite F, F1 by done. done.
Qed.

(** X16: the disposables list is replaced by an empty one once the
    callbacks present at the start have run.  A callback that a disposable
    registers on the same node during that pass is therefore never invoked:
    [unload()] records the disposables that were queued before and nothing
    of the new ones, and leaves the list empty. *)
Theorem X16_registered_while_disposing_is_lost P fuel c kids s :
  _loaded (get c s) = true →
  _children (get c s) = map root kids →
  Forall (fun cb => forallb (registers_on c) cb = true) (_disposables (get c s)) →
  quiet (onunload_of P c) = true →
  Forall (shape P s) kids →
  NoDup (c :: (kids ≫= nodes)) →
  Forall (fun k => height k ≤ fuel) kids →
  ∃ s', unload P (S fuel) c s = Ret s'
    ∧ log s' = log s
        ++ (kids ≫= trace P (plugs s))
        ++ cancel_trace (_intervals (get c s))
        ++ (_disposables (get c s) ≫= dispose_trace (plugs s))
        ++ EvOnunload c :: effects (plugs s) (onunload_of P c)
    ∧ _disposables (get c s') = []
    ∧ _loaded (get c s') = false.
Proof.
  intros Hl Hch Hd Hqh Hsh Hnd Hh.
  apply NoDup_cons in Hnd as [Hc Hnd].
  destruct (unload_through_timers P (S fuel) c kids (_intervals (get c s))
              (_disposables (get c s)) s) as (s1 & T1 & Hc1 & Hrun); try done.
  { rewrite Forall_forall. intros k _. apply unload_tree. }
  { eapply Forall_impl; [exact Hh|]. cbn. intros; lia. }
  change (unload P (S fuel) c s) with (Component.unload P (call P (S fuel)) c s).
  rewrite Hrun. cbn zeta.
  set (s2 := upd c (set_intervals []) _).
  destruct (forEach_dispose_registering P fuel c (_disposables (get c s)) s2 Hd)
    as (s3 & -> & L3 & P3 & G3 & F3).
  cbn [bind]. unfold Component.onunload. rewrite run_quiet by done. cbn [bind].
  eexists. split; [reflexivity|].
  split; [|split; by autorewrite with store].
  autorewrite with store. rewrite L3, P3. unfold s2. autorewrite with store.
  rewrite (torn_log _ _ _ _ T1), (torn_plugs _ _ _ _ T1). by rewrite <- !app_assoc.
Qed.

Lemma X16_registered_while_disposing_is_lost_witness :
  ∃ s', unload Family.prog 1 0 Chained.s = Ret s'
    ∧ log s' = [EvDispose Chained.first; EvNote "first"; EvOnunload 0; EvNote "bye"]
    ∧ _disposables (get 0 s') = [].
Proof.
  destruct (X16_registered_while_disposing_is_lost Family.prog 0 0 [] Chained.s)
    as (s' & Hrun & Hlog & Hd & _).
  - reflexivity.
  - reflexivity.
  - repeat constructor.
  - reflexivity.
  - constructor.
  - apply (bool_decide_unpack _). vm_compute. reflexivity.
  - constructor.
  - exists s'. split; [exact Hrun|]. split; [rewrite Hlog; reflexivity|exact Hd].
Defined.
